(** * Ephemeral tokens and proxied Gemini Live sessions

    A shallow embedding of the token service ([convex/tokens.ts]), of the
    session proxy that follows it in the same source file, and of the
    browser-side token cache ([app/lib/token-service.ts]), together with the
    properties the specification states about them.

    Conventions of the embedding:
    - a JavaScript number that the application stores (a timestamp in
      milliseconds, a counter, a bound, a number of minutes) is a [Z]; the
      embedding covers the integer-valued numbers, as every value the
      application itself produces is;
    - [Date.now()] is an argument [now] of the operation that reads it; a
      handler reads one clock value per call, as a Convex function does;
    - an optional argument ([v.optional], a missing JSON field, a missing URL
      parameter) is an [option];
    - what the platform decides (random bytes, whether the provider accepts a
      connection, whether [close()] throws, what [JSON.parse] makes of a
      text) is an argument or a field of the environment. *)

From Stdlib Require Import ZArith String Ascii List Lia Bool.
From Stdlib Require Import Decimal DecimalString DecimalPos.
From Stdlib Require Strings.Byte.
From stdpp Require Import gmap strings list.

Local Open Scope string_scope.
Local Open Scope Z_scope.

(** ** JavaScript values the sources rely on *)

Module JS.

(** [a || d] on an optional number: [undefined], [0] (and [NaN]) are falsy. *)
Definition or_default (a : option Z) (d : Z) : Z :=
  match a with
  | Some n => if n =? 0 then d else n
  | None => d
  end.

(** A destructuring default [{ a = d }]: only [undefined] takes it. *)
Definition default_to (a : option Z) (d : Z) : Z :=
  match a with
  | Some n => n
  | None => d
  end.

(** [if (!s) ... else ... s ...] on an optional string: [null], [undefined]
    and the empty string are falsy; a truthy one is used as it is. *)
Definition present (s : option string) : option string :=
  match s with
  | Some EmptyString => None
  | Some s => Some s
  | None => None
  end.

(** [`${n}`] for an integer [n] (below 1e21, printed in full). *)
Definition number_to_string (n : Z) : string :=
  NilEmpty.string_of_int (Z.to_int n).

(** [result += s[i]]: an index outside the string reads [undefined], which
    the concatenation renders as text. *)
Definition append_char_at (result s : string) (i : Z) : string :=
  match (if 0 <=? i then String.get (Z.to_nat i) s else None) with
  | Some c => result +:+ String c EmptyString
  | None => result +:+ "undefined"
  end.

(** [Math.max] on two integers. *)
Definition math_max (a b : Z) : Z := Z.max a b.

(** [Number.MAX_SAFE_INTEGER] and [Number.isSafeInteger]. The program's
    counters, bounds and times are integer-valued numbers and are modelled
    as [Z]; the code computes on them in double precision, where a sum is
    the exact one as long as both terms and the sum are safe integers. *)
Definition MAX_SAFE_INTEGER : Z := 2 ^ 53 - 1.

Definition safe_integer (n : Z) : Prop :=
  - MAX_SAFE_INTEGER <= n <= MAX_SAFE_INTEGER.

(** [a + b] is computed without rounding. *)
Definition exact_sum (a b : Z) : Prop :=
  safe_integer a /\ safe_integer b /\ safe_integer (a + b).

End JS.

(** ** Token secrets: [generateSecureToken] *)

Module Secret.

Definition chars : string :=
  "ABCDEFGHIJKLMNOPQRSTUVWXYZabcdefghijklmnopqrstuvwxyz0123456789".

Definition chars_length : Z := Z.of_nat (String.length chars).

(** One value of [Math.random()], as the fraction it denotes. *)
Record Sample := { sample_num : Z; sample_den : positive }.

Definition in_unit_interval (r : Sample) : Prop :=
  0 <= sample_num r < Z.pos (sample_den r).

(** [Math.floor(Math.random() * chars.length)] *)
Definition floor_scaled (r : Sample) (k : Z) : Z :=
  (sample_num r * k) / Z.pos (sample_den r).

(** The random source the function finds: [crypto.getRandomValues], which
    fills the 32 cells of the [Uint8Array], or the [Math.random] fallback,
    read once per character. *)
Inductive Entropy :=
| CryptoRandom (randomValues : nat -> Byte.byte)
| MathRandom (random : nat -> Sample).

(** [for (let i = ...; i < 32; i++) result += chars[pick i]], with [n]
    iterations left. *)
Fixpoint fill (pick : nat -> Z) (i n : nat) (result : string) : string :=
  match n with
  | O => result
  | S n' => fill pick (S i) n' (JS.append_char_at result chars (pick i))
  end.

Definition pick_of (e : Entropy) (i : nat) : Z :=
  match e with
  | CryptoRandom randomValues =>
      Z.of_N (Byte.to_N (randomValues i)) mod chars_length
  | MathRandom random => floor_scaled (random i) chars_length
  end.

Definition generateSecureToken (e : Entropy) (now : Z) : string :=
  let result := fill (pick_of e) 0 32 "" in
  "glt_" +:+ result +:+ "_" +:+ JS.number_to_string now.

(** What the platform promises about the source: [Math.random()] lies in
    the unit interval (bytes need no promise). *)
Definition entropy_ok (e : Entropy) : Prop :=
  match e with
  | CryptoRandom _ => True
  | MathRandom random => forall i, in_unit_interval (random i)
  end.

(** *** The textual format [^glt_[A-Za-z0-9]{32}_[0-9]+$] *)

Definition is_digit (c : ascii) : bool :=
  let n := nat_of_ascii c in (48 <=? n)%nat && (n <=? 57)%nat.

Definition is_alnum (c : ascii) : bool :=
  let n := nat_of_ascii c in
  ((65 <=? n)%nat && (n <=? 90)%nat)
  || ((97 <=? n)%nat && (n <=? 122)%nat)
  || is_digit c.

Fixpoint all_chars (p : ascii -> bool) (s : string) : bool :=
  match s with
  | EmptyString => true
  | String c s' => p c && all_chars p s'
  end.

(** Reads exactly [n] alphanumeric characters and gives back the rest. *)
Fixpoint take_alnum (n : nat) (s : string) : option string :=
  match n with
  | O => Some s
  | S n' =>
      match s with
      | String c s' => if is_alnum c then take_alnum n' s' else None
      | EmptyString => None
      end
  end.

Definition matches_format (s : string) : bool :=
  match s with
  | String "g" (String "l" (String "t" (String "_" rest))) =>
      match take_alnum 32 rest with
      | Some (String "_" (String d ds)) => is_digit d && all_chars is_digit ds
      | _ => false
      end
  | _ => false
  end.

End Secret.

(** ** Effects: state, exceptions, [try]/[catch] *)

Module Eff.

Inductive Outcome (A : Type) :=
| Returned (a : A)
| Thrown (message : string).
Arguments Returned {A} a.
Arguments Thrown {A} message.

(** A computation over a mutable state [S] that returns or throws. *)
Definition M (S A : Type) : Type := S -> Outcome A * S.

Definition ret {S A} (a : A) : M S A := fun st => (Returned a, st).

Definition bind {S A B} (m : M S A) (k : A -> M S B) : M S B :=
  fun st =>
    match m st with
    | (Returned a, st') => k a st'
    | (Thrown e, st') => (Thrown e, st')
    end.

Definition throw {S A} (message : string) : M S A :=
  fun st => (Thrown message, st).

Definition gets {S A} (f : S -> A) : M S A := fun st => (Returned (f st), st).

Definition modify {S} (f : S -> S) : M S unit := fun st => (Returned tt, f st).

(** [try { body } catch (error) { handler }]: what [body] wrote before it
    threw stays written. *)
Definition try_catch {S A} (body : M S A) (handler : string -> M S A) : M S A :=
  fun st =>
    match body st with
    | (Returned a, st') => (Returned a, st')
    | (Thrown e, st') => handler e st'
    end.

(** A Convex mutation is a transaction: when it throws, its writes are
    dropped. *)
Definition transaction {S A} (m : M S A) : M S A :=
  fun st =>
    match m st with
    | (Returned a, st') => (Returned a, st')
    | (Thrown e, _) => (Thrown e, st)
    end.

End Eff.

Notation "'let*' x ':=' m 'in' k" := (Eff.bind m (fun x => k))
  (at level 10, x name, m at level 100, k at level 200).

(** ** The token service: [convex/tokens.ts] *)

Module Tokens.
Import Eff.

Definition TOKEN_EXPIRATION_MINUTES : Z := 60.
Definition MAX_SESSIONS_PER_TOKEN : Z := 5.
Definition MAX_MESSAGES_PER_TOKEN : Z := 1000.

(** A document of the [ephemeralTokens] table. Its numbers are
    integer-valued and modelled as [Z]; see [JS.safe_integer] for the range
    on which the code's double-precision sums are the exact ones. *)
Record TokenDoc := {
  _id : nat;
  token : string;
  userId : string;
  expiresAt : Z;
  sessionsUsed : Z;
  messagesUsed : Z;
  maxSessions : Z;
  maxMessages : Z;
  isActive : bool;
  createdAt : Z;
  lastUsed : Z;
  deactivatedAt : option Z
}.

(** The database the handlers see through [ctx.db]: the [tokenIdentifier]s
    of the [users] table, the [ephemeralTokens] documents in creation
    order, and the next document id the database hands out. *)
Record Store := {
  users : list string;
  ephemeralTokens : list TokenDoc;
  nextId : nat
}.

Definition with_tokens (st : Store) (docs : list TokenDoc) : Store :=
  {| users := users st; ephemeralTokens := docs; nextId := nextId st |}.

(** [ctx.db.query("users").withIndex("by_token", ...).first()] *)
Definition user_by_token (tokenIdentifier : string) : M Store (option string) :=
  gets (fun st => List.find (String.eqb tokenIdentifier) (users st)).

(** [ctx.db.query("ephemeralTokens").withIndex("by_token", ...).first()]:
    the oldest document carrying that secret. *)
Definition first_by_token (tok : string) : M Store (option TokenDoc) :=
  gets (fun st => List.find (fun d => String.eqb (token d) tok) (ephemeralTokens st)).

(** [ctx.db.insert("ephemeralTokens", fields)] *)
Definition db_insert (fields : nat -> TokenDoc) : M Store nat :=
  fun st =>
    (Returned (nextId st),
     {| users := users st;
        ephemeralTokens := ephemeralTokens st ++ [fields (nextId st)];
        nextId := S (nextId st) |}).

(** [ctx.db.patch(id, fields)] *)
Definition db_patch (id : nat) (fields : TokenDoc -> TokenDoc) : M Store unit :=
  modify (fun st =>
    with_tokens st
      (List.map (fun d => if Nat.eqb (_id d) id then fields d else d)
                (ephemeralTokens st))).

(** [ctx.db.delete(id)]; deleting a document that is gone changes nothing. *)
Definition db_delete (id : nat) : M Store unit :=
  modify (fun st =>
    with_tokens st
      (List.filter (fun d => negb (Nat.eqb (_id d) id)) (ephemeralTokens st))).

(** [ctx.db.query("ephemeralTokens").filter(...).collect()] *)
Definition collect (p : TokenDoc -> bool) : M Store (list TokenDoc) :=
  gets (fun st => List.filter p (ephemeralTokens st)).

(** *** [generateEphemeralToken] *)

Record Generated := {
  g_token : string;
  g_expiresAt : Z;
  g_maxSessions : Z;
  g_maxMessages : Z;
  g_tokenId : nat
}.

Definition generateEphemeralToken (e : Secret.Entropy) (now : Z)
    (userId : string) (maxSessions maxMessages expirationMinutes : option Z)
    : M Store Generated :=
  let* user := user_by_token userId in
  match user with
  | None => throw "User not found"
  | Some _ =>
      let expirationTime := JS.or_default expirationMinutes TOKEN_EXPIRATION_MINUTES in
      let expiresAt := now + expirationTime * 60 * 1000 in
      let token := Secret.generateSecureToken e now in
      let* tokenId :=
        db_insert (fun id =>
          {| _id := id;
             token := token;
             userId := userId;
             expiresAt := expiresAt;
             sessionsUsed := 0;
             messagesUsed := 0;
             maxSessions := JS.or_default maxSessions MAX_SESSIONS_PER_TOKEN;
             maxMessages := JS.or_default maxMessages MAX_MESSAGES_PER_TOKEN;
             isActive := true;
             createdAt := now;
             lastUsed := now;
             deactivatedAt := None |}) in
      ret {| g_token := token;
             g_expiresAt := expiresAt;
             g_maxSessions := JS.or_default maxSessions MAX_SESSIONS_PER_TOKEN;
             g_maxMessages := JS.or_default maxMessages MAX_MESSAGES_PER_TOKEN;
             g_tokenId := tokenId |}
  end.

(** *** [validateEphemeralToken] *)

(** The reasons of the specification, and the text the code reports for
    each. *)
Inductive Reason :=
| NotFound
| Deactivated
| Expired
| SessionQuotaExceeded
| MessageQuotaExceeded.

Definition message_of (r : Reason) : string :=
  match r with
  | NotFound => "Token not found"
  | Deactivated => "Token is deactivated"
  | Expired => "Token expired"
  | SessionQuotaExceeded => "Session limit exceeded"
  | MessageQuotaExceeded => "Message limit exceeded"
  end.

Record Validation := {
  isValid : bool;
  error : option string;
  v_userId : option string;
  v_sessionsUsed : option Z;
  v_messagesUsed : option Z;
  v_maxSessions : option Z;
  v_maxMessages : option Z;
  v_expiresAt : option Z
}.

Definition invalid (r : Reason) : Validation :=
  {| isValid := false; error := Some (message_of r);
     v_userId := None; v_sessionsUsed := None; v_messagesUsed := None;
     v_maxSessions := None; v_maxMessages := None; v_expiresAt := None |}.

Definition valid (tokenRecord : TokenDoc) : Validation :=
  {| isValid := true; error := None;
     v_userId := Some (userId tokenRecord);
     v_sessionsUsed := Some (sessionsUsed tokenRecord);
     v_messagesUsed := Some (messagesUsed tokenRecord);
     v_maxSessions := Some (maxSessions tokenRecord);
     v_maxMessages := Some (maxMessages tokenRecord);
     v_expiresAt := Some (expiresAt tokenRecord) |}.

Definition validateEphemeralToken (now : Z) (token : string) : M Store Validation :=
  let* found := first_by_token token in
  match found with
  | None => ret (invalid NotFound)
  | Some tokenRecord =>
      if negb (isActive tokenRecord) then ret (invalid Deactivated)
      else if now >? expiresAt tokenRecord then ret (invalid Expired)
      else if sessionsUsed tokenRecord >=? maxSessions tokenRecord
           then ret (invalid SessionQuotaExceeded)
      else if messagesUsed tokenRecord >=? maxMessages tokenRecord
           then ret (invalid MessageQuotaExceeded)
      else ret (valid tokenRecord)
  end.

(** *** [updateTokenUsage] *)

Record Usage := {
  u_sessionsUsed : Z;
  u_messagesUsed : Z;
  u_maxSessions : Z;
  u_maxMessages : Z
}.

Definition patch_usage (newSessionsUsed newMessagesUsed now : Z) (d : TokenDoc) : TokenDoc :=
  {| _id := _id d; token := token d; userId := userId d;
     expiresAt := expiresAt d;
     sessionsUsed := newSessionsUsed;
     messagesUsed := newMessagesUsed;
     maxSessions := maxSessions d; maxMessages := maxMessages d;
     isActive := isActive d; createdAt := createdAt d;
     lastUsed := now;
     deactivatedAt := deactivatedAt d |}.

Definition updateTokenUsage (now : Z) (token : string)
    (incrementSessions incrementMessages : option Z) : M Store Usage :=
  let incrementSessions := JS.default_to incrementSessions 0 in
  let incrementMessages := JS.default_to incrementMessages 0 in
  let* found := first_by_token token in
  match found with
  | None => throw "Token not found"
  | Some tokenRecord =>
      let newSessionsUsed := sessionsUsed tokenRecord + incrementSessions in
      let newMessagesUsed := messagesUsed tokenRecord + incrementMessages in
      let* _ := db_patch (_id tokenRecord)
                  (patch_usage newSessionsUsed newMessagesUsed now) in
      ret {| u_sessionsUsed := newSessionsUsed;
             u_messagesUsed := newMessagesUsed;
             u_maxSessions := maxSessions tokenRecord;
             u_maxMessages := maxMessages tokenRecord |}
  end.

(** *** [refreshEphemeralToken] *)

Record Refreshed := {
  r_token : string;
  r_expiresAt : Z;
  r_sessionsUsed : Z;
  r_messagesUsed : Z
}.

Definition patch_expiry (newExpiresAt now : Z) (d : TokenDoc) : TokenDoc :=
  {| _id := _id d; token := token d; userId := userId d;
     expiresAt := newExpiresAt;
     sessionsUsed := sessionsUsed d; messagesUsed := messagesUsed d;
     maxSessions := maxSessions d; maxMessages := maxMessages d;
     isActive := isActive d; createdAt := createdAt d;
     lastUsed := now;
     deactivatedAt := deactivatedAt d |}.

Definition refreshEphemeralToken (now : Z) (token : string)
    (additionalMinutes : option Z) : M Store Refreshed :=
  let additionalMinutes := JS.default_to additionalMinutes TOKEN_EXPIRATION_MINUTES in
  let* found := first_by_token token in
  match found with
  | None => throw "Token not found"
  | Some tokenRecord =>
      if negb (isActive tokenRecord) then throw "Cannot refresh inactive token"
      else
        let newExpiresAt :=
          JS.math_max (now + additionalMinutes * 60 * 1000)
                      (expiresAt tokenRecord + additionalMinutes * 60 * 1000) in
        let* _ := db_patch (_id tokenRecord) (patch_expiry newExpiresAt now) in
        ret {| r_token := token;
               r_expiresAt := newExpiresAt;
               r_sessionsUsed := sessionsUsed tokenRecord;
               r_messagesUsed := messagesUsed tokenRecord |}
  end.

(** *** [deactivateEphemeralToken] *)

Record Deactivation := { success : bool; d_token : string }.

Definition patch_deactivated (now : Z) (d : TokenDoc) : TokenDoc :=
  {| _id := _id d; token := token d; userId := userId d;
     expiresAt := expiresAt d;
     sessionsUsed := sessionsUsed d; messagesUsed := messagesUsed d;
     maxSessions := maxSessions d; maxMessages := maxMessages d;
     isActive := false; createdAt := createdAt d;
     lastUsed := lastUsed d;
     deactivatedAt := Some now |}.

Definition deactivateEphemeralToken (now : Z) (token : string) : M Store Deactivation :=
  let* found := first_by_token token in
  match found with
  | None => throw "Token not found"
  | Some tokenRecord =>
      let* _ := db_patch (_id tokenRecord) (patch_deactivated now) in
      ret {| success := true; d_token := token |}
  end.

(** *** [cleanupExpiredTokens] *)

Record Cleanup := { cleaned : nat; timestamp : Z }.

Fixpoint delete_all (ids : list nat) : M Store unit :=
  match ids with
  | [] => ret tt
  | id :: ids' => let* _ := db_delete id in delete_all ids'
  end.

Definition cleanupExpiredTokens (now : Z) : M Store Cleanup :=
  let* expiredTokens :=
    collect (fun d => (expiresAt d <? now) || Bool.eqb (isActive d) false) in
  let* _ := delete_all (List.map _id expiredTokens) in
  ret {| cleaned := List.length expiredTokens; timestamp := now |}.

(** *** Sequences of token operations *)

Inductive Op :=
| Generate (e : Secret.Entropy) (userId : string)
           (maxSessions maxMessages expirationMinutes : option Z)
| Validate (token : string)
| UpdateUsage (token : string) (incrementSessions incrementMessages : option Z)
| Refresh (token : string) (additionalMinutes : option Z)
| Deactivate (token : string)
| CleanupExpired.

(** The store after one operation called at time [now]; a query leaves the
    store as it is, and so does a mutation that throws. *)
Definition exec (now : Z) (op : Op) (st : Store) : Store :=
  match op with
  | Generate e userId maxS maxM minutes =>
      snd (transaction (generateEphemeralToken e now userId maxS maxM minutes) st)
  | Validate token => snd (validateEphemeralToken now token st)
  | UpdateUsage token incS incM =>
      snd (transaction (updateTokenUsage now token incS incM) st)
  | Refresh token minutes =>
      snd (transaction (refreshEphemeralToken now token minutes) st)
  | Deactivate token =>
      snd (transaction (deactivateEphemeralToken now token) st)
  | CleanupExpired =>
      snd (transaction (cleanupExpiredTokens now) st)
  end.

Fixpoint run (ops : list (Z * Op)) (st : Store) : Store :=
  match ops with
  | [] => st
  | (now, op) :: ops' => run ops' (exec now op st)
  end.

(** The database before any token is issued. *)
Definition empty_store (users : list string) : Store :=
  {| users := users; ephemeralTokens := []; nextId := 0 |}.

(** The counters of every stored token are within its bounds. *)
Definition within_quota (d : TokenDoc) : Prop :=
  sessionsUsed d <= maxSessions d /\ messagesUsed d <= maxMessages d.

Definition quota_respected (st : Store) : Prop :=
  Forall within_quota (ephemeralTokens st).

(** The record a secret designates, as every handler looks it up. *)
Definition lookup (tok : string) (st : Store) : option TokenDoc :=
  List.find (fun d => String.eqb (token d) tok) (ephemeralTokens st).

(** An operation keeps to the quota when it issues a token with bounds
    that are not negative, or adds to the counters of a token no more than
    what the token has left. *)
Definition fits_quota (op : Op) (st : Store) : Prop :=
  match op with
  | Generate _ _ maxSessions maxMessages _ =>
      0 <= JS.or_default maxSessions MAX_SESSIONS_PER_TOKEN
      /\ 0 <= JS.or_default maxMessages MAX_MESSAGES_PER_TOKEN
  | UpdateUsage tok incrementSessions incrementMessages =>
      match lookup tok st with
      | Some d =>
          sessionsUsed d + JS.default_to incrementSessions 0 <= maxSessions d
          /\ messagesUsed d + JS.default_to incrementMessages 0 <= maxMessages d
      | None => True
      end
  | _ => True
  end.

(** Every operation of the sequence keeps to the quota in the store it
    runs on. *)
Fixpoint metered (ops : list (Z * Op)) (st : Store) : Prop :=
  match ops with
  | [] => True
  | (now, op) :: ops' => fits_quota op st /\ metered ops' (exec now op st)
  end.

End Tokens.

(** ** The session proxy: [geminiLiveProxy] and the inactivity sweep *)

Module Proxy.
Import Eff.

(** The provider's channel, as far as the proxy can tell: which channel it
    is, and whether its [close()] throws. *)
Record Connection := { handle : nat; close_throws : bool }.

Record GeminiSession := {
  sessionId : string;
  userId : string;
  geminiConnection : option Connection;
  isActive : bool;
  createdAt : Z;
  lastActivity : Z
}.

(** What the proxy does to the outside: calls of [close()] on a session's
    connection, and the errors it logs when closing fails. *)
Inductive Event :=
| CloseCalled (sessionId : string) (c : Connection)
| CloseErrorLogged (sessionId : string)
| CleanupLogged (sessionId : string).

(** The module-level [activeSessions] map, the database behind [ctx], and
    the trace of outside effects (latest first). *)
Record State := {
  activeSessions : gmap string GeminiSession;
  db : Tokens.Store;
  events : list Event
}.

Definition with_sessions (st : State) (m : gmap string GeminiSession) : State :=
  {| activeSessions := m; db := db st; events := events st |}.

Definition emit (ev : Event) : M State unit :=
  modify (fun st =>
    {| activeSessions := activeSessions st; db := db st; events := ev :: events st |}).

Definition sessions_get (sid : string) : M State (option GeminiSession) :=
  gets (fun st => activeSessions st !! sid).

Definition sessions_set (sid : string) (s : GeminiSession) : M State unit :=
  modify (fun st => with_sessions st (<[sid := s]> (activeSessions st))).

Definition sessions_delete (sid : string) : M State unit :=
  modify (fun st => with_sessions st (delete sid (activeSessions st))).

(** [ctx.runQuery] and [ctx.runMutation]: run a token handler against the
    database; a mutation is a transaction. *)
Definition runQuery {A} (q : M Tokens.Store A) : M State A :=
  fun st => (fst (q (db st)), st).

Definition runMutation {A} (m : M Tokens.Store A) : M State A :=
  fun st =>
    let '(r, db') := transaction m (db st) in
    (r, {| activeSessions := activeSessions st; db := db'; events := events st |}).

(** [connection.close()], where [connection] may be a falsy value. *)
Definition connection_close (sid : string) (c : option Connection) : M State unit :=
  match c with
  | None => throw "TypeError"
  | Some c =>
      let* _ := emit (CloseCalled sid c) in
      if close_throws c then throw "close failed" else ret tt
  end.

(** *** Responses *)

Inductive Body :=
| ErrorBody (error : string)
| SessionCreated (sessionId status model : string)
| StatusBody (status : string).

Record Response := { status : Z; body : Body }.

Definition respond (b : Body) : Response := {| status := 200; body := b |}.
Definition respond_error (code : Z) (msg : string) : Response :=
  {| status := code; body := ErrorBody msg |}.

(** *** [cleanupInactiveSessions] *)

Definition TIMEOUT_MS : Z := 15 * 60 * 1000.

Definition timed_out (now : Z) (session : GeminiSession) : bool :=
  now - lastActivity session >? TIMEOUT_MS.

(** The body of the loop, for one entry of the map. *)
Definition cleanup_entry (now : Z) (entry : string * GeminiSession) : M State unit :=
  let '(sessionId, session) := entry in
  if timed_out now session then
    let* _ := emit (CleanupLogged sessionId) in
    let* _ :=
      try_catch
        (match geminiConnection session with
         | Some c =>
             if isActive session then connection_close sessionId (Some c) else ret tt
         | None => ret tt
         end)
        (fun _ => emit (CloseErrorLogged sessionId)) in
    sessions_delete sessionId
  else ret tt.

Fixpoint cleanup_entries (now : Z) (entries : list (string * GeminiSession)) : M State unit :=
  match entries with
  | [] => ret tt
  | entry :: rest => let* _ := cleanup_entry now entry in cleanup_entries now rest
  end.

(** [for (const [sessionId, session] of activeSessions) ...]: the loop
    visits the entries the map has when the sweep starts; the only entry an
    iteration removes is the one it visits. *)
Definition cleanupInactiveSessions (now : Z) : M State unit :=
  fun st => cleanup_entries now (map_to_list (activeSessions st)) st.

(** *** [create_session] *)

Definition MODEL : string := "gemini-2.5-flash-preview-native-audio-dialog".

(** What the platform contributes to one [create_session] request: the
    identifier [generateSessionId] draws and what [createGeminiConnection]
    yields ([None] when it throws). *)
Record Provider := {
  newSessionId : string;
  connect : option Connection
}.

Definition validation_failed (v : Tokens.Validation) : string :=
  "Token validation failed: " +:+
  match Tokens.error v with
  | Some e => e
  | None => "undefined"
  end.

Definition create_session_body (now : Z) (p : Provider)
    (userId ephemeralToken : option string) : M State Response :=
  match JS.present userId with
  | None => ret (respond_error 400 "userId is required")
  | Some userId =>
      let* refused :=
        match JS.present ephemeralToken with
        | Some ephemeralToken =>
            let* tokenValidation :=
              runQuery (Tokens.validateEphemeralToken now ephemeralToken) in
            if negb (Tokens.isValid tokenValidation)
            then ret (Some (respond_error 403 (validation_failed tokenValidation)))
            else
              let* _ := runMutation
                          (Tokens.updateTokenUsage now ephemeralToken (Some 1) None) in
              ret None
        | None => ret None
        end in
      match refused with
      | Some response => ret response
      | None =>
          match connect p with
          | Some geminiConnection =>
              let sessionData :=
                {| sessionId := newSessionId p;
                   userId := userId;
                   geminiConnection := Some geminiConnection;
                   isActive := true;
                   createdAt := now;
                   lastActivity := now |} in
              let* _ := sessions_set (newSessionId p) sessionData in
              ret (respond (SessionCreated (newSessionId p) "connected" MODEL))
          | None => ret (respond_error 500 "Failed to create session")
          end
      end
  end.

(** *** [close_session] *)

Definition mark_inactive (s : GeminiSession) : GeminiSession :=
  {| sessionId := sessionId s; userId := userId s;
     geminiConnection := geminiConnection s;
     isActive := false;
     createdAt := createdAt s; lastActivity := lastActivity s |}.

Definition close_session_body (sessionId : option string) : M State Response :=
  match JS.present sessionId with
  | None => ret (respond_error 400 "sessionId is required")
  | Some sessionId =>
      let* sessionData := sessions_get sessionId in
      let* _ :=
        match sessionData with
        | Some sessionData =>
            let* _ :=
              try_catch
                (let* _ := connection_close sessionId (geminiConnection sessionData) in
                 sessions_set sessionId (mark_inactive sessionData))
                (fun _ => emit (CloseErrorLogged sessionId)) in
            sessions_delete sessionId
        | None => ret tt
        end in
      ret (respond (StatusBody "session_closed"))
  end.

(** *** [session_status] *)

Record SessionStatus := {
  s_sessionId : string;
  s_isActive : bool;
  s_lastActivity : option Z;
  s_userId : option string
}.

Definition session_status (sid : string) (st : State) : SessionStatus :=
  let sessionData := activeSessions st !! sid in
  {| s_sessionId := sid;
     s_isActive := match sessionData with Some s => isActive s | None => false end;
     s_lastActivity := lastActivity <$> sessionData;
     s_userId := userId <$> sessionData |}.

(** *** The request handler *)

Inductive Request :=
| CreateSession (p : Provider) (userId ephemeralToken : option string)
| CloseSession (sessionId : option string).

(** The [switch] of [geminiLiveProxy] inside its outer [try]/[catch]. *)
Definition geminiLiveProxy (now : Z) (request : Request) : M State Response :=
  try_catch
    (match request with
     | CreateSession p userId ephemeralToken =>
         create_session_body now p userId ephemeralToken
     | CloseSession sessionId => close_session_body sessionId
     end)
    (fun _ => ret (respond_error 500 "Internal server error")).

(** *** Provider callbacks *)

Definition onerror (sid : string) : M State unit :=
  let* sessionData := sessions_get sid in
  match sessionData with
  | Some s => sessions_set sid (mark_inactive s)
  | None => ret tt
  end.

Definition onclose (sid : string) : M State unit := sessions_delete sid.

End Proxy.

(** ** The browser-side cache: [TokenStorage] in [app/lib/token-service.ts] *)

Module TokenService.
Import Eff.

Record TokenInfo := {
  token : string;
  expiresAt : Z;
  maxSessions : Z;
  maxMessages : Z;
  tokenId : string
}.

Definition TOKEN_KEY : string := "gemini_ephemeral_token".
Definition TOKEN_INFO_KEY : string := "gemini_token_info".

(** Where the code runs: whether there is a [window] at all, whether the
    browser lets the page use [localStorage] (when it does not, every
    method of it throws), what the storage holds, and the warnings
    written to the console (latest first). *)
Record Browser := {
  window_defined : bool;
  storage_blocked : bool;
  localStorage : gmap string string;
  console : list string
}.

Definition with_storage (b : Browser) (m : gmap string string) : Browser :=
  {| window_defined := window_defined b; storage_blocked := storage_blocked b;
     localStorage := m; console := console b |}.

Definition getItem (key : string) : M Browser (option string) :=
  fun b =>
    if storage_blocked b then (Thrown "SecurityError", b)
    else (Returned (localStorage b !! key), b).

Definition setItem (key value : string) : M Browser unit :=
  fun b =>
    if storage_blocked b then (Thrown "SecurityError", b)
    else (Returned tt, with_storage b (<[key := value]> (localStorage b))).

Definition removeItem (key : string) : M Browser unit :=
  fun b =>
    if storage_blocked b then (Thrown "SecurityError", b)
    else (Returned tt, with_storage b (delete key (localStorage b))).

Definition warn (message : string) : M Browser unit :=
  modify (fun b =>
    {| window_defined := window_defined b; storage_blocked := storage_blocked b;
       localStorage := localStorage b; console := message :: console b |}).

Section Platform.

(** The platform's [JSON.parse], read at the type the code casts its
    result to: [Some info] for a text that parses to a token record,
    [None] when it throws. A text that parses to any other value (the code
    does not check the shape) has no reading here; statements about a cached
    record say that it parses to a token record. *)
Variable JSON_parse : string -> option TokenInfo.
Variable JSON_stringify : TokenInfo -> string.

Definition parse (text : string) : M Browser TokenInfo :=
  match JSON_parse text with
  | Some info => ret info
  | None => throw "SyntaxError"
  end.

Definition storeToken (tokenInfo : TokenInfo) : M Browser unit :=
  let* window := gets window_defined in
  if negb window then ret tt
  else
    try_catch
      (let* _ := setItem TOKEN_KEY (token tokenInfo) in
       setItem TOKEN_INFO_KEY (JSON_stringify tokenInfo))
      (fun _ => warn "Failed to store ephemeral token:").

Definition getToken : M Browser (option string) :=
  let* window := gets window_defined in
  if negb window then ret None
  else
    try_catch
      (getItem TOKEN_KEY)
      (fun _ => let* _ := warn "Failed to retrieve ephemeral token:" in ret None).

Definition clearToken : M Browser unit :=
  let* window := gets window_defined in
  if negb window then ret tt
  else
    try_catch
      (let* _ := removeItem TOKEN_KEY in
       removeItem TOKEN_INFO_KEY)
      (fun _ => warn "Failed to clear ephemeral token:").

Definition getTokenInfo (now : Z) : M Browser (option TokenInfo) :=
  let* window := gets window_defined in
  if negb window then ret None
  else
    try_catch
      (let* infoString := getItem TOKEN_INFO_KEY in
       match JS.present infoString with
       | None => ret None
       | Some infoString =>
           let* info := parse infoString in
           if now >? expiresAt info then
             let* _ := clearToken in
             ret None
           else ret (Some info)
       end)
      (fun _ =>
         let* _ := warn "Failed to retrieve token info:" in
         let* _ := clearToken in
         ret None).

(** [now] is the clock read inside [getTokenInfo], [now'] the one read
    by the comparison that follows. *)
Definition isTokenValid (now now' : Z) : M Browser bool :=
  let* tokenInfo := getTokenInfo now in
  ret (match tokenInfo with
       | Some tokenInfo => now' <? expiresAt tokenInfo
       | None => false
       end).

End Platform.

End TokenService.


(** ** Listing an owner's tokens: [getUserTokens] *)

Module Admin.
Import Eff Tokens.

Record TokenSummary := {
  s_token : string;
  s_isActive : bool;
  s_expiresAt : Z;
  s_sessionsUsed : Z;
  s_messagesUsed : Z;
  s_maxSessions : Z;
  s_maxMessages : Z;
  s_createdAt : Z;
  s_lastUsed : Z
}.

(** [token.substring(0, 12) + "..."] *)
Definition redact (token : string) : string :=
  String.substring 0 12 token +:+ "...".

Definition summary (d : TokenDoc) : TokenSummary :=
  {| s_token := redact (token d);
     s_isActive := isActive d;
     s_expiresAt := expiresAt d;
     s_sessionsUsed := sessionsUsed d;
     s_messagesUsed := messagesUsed d;
     s_maxSessions := maxSessions d;
     s_maxMessages := maxMessages d;
     s_createdAt := createdAt d;
     s_lastUsed := lastUsed d |}.

(** [ctx.db.query("ephemeralTokens").withIndex("by_user", ...).collect()],
    then [map]: the owner's documents, oldest first. *)
Definition getUserTokens (owner : string) : M Store (list TokenSummary) :=
  let* tokens := collect (fun d => String.eqb (userId d) owner) in
  ret (List.map summary tokens).

End Admin.

(** ** Messages through the proxy: [send_message], [list_sessions] and the
    provider's [onmessage] *)

Module Messaging.
Import Eff Proxy.

(** The [message] field of the request body: a text, or an object with
    optional [audioData] and [mimeType]. *)
Inductive Message :=
| TextMessage (text : string)
| AudioMessage (audioData mimeType : option string).

(** What the proxy forwards to the provider on a connection:
    [sendClientContent] with one user turn, or [sendRealtimeInput] with one
    audio chunk. *)
Inductive Sent :=
| ClientContent (c : Connection) (text : option Message) (turnComplete : bool)
| RealtimeInput (c : Connection) (data : option string) (mimeType : string).

(** The proxy together with what it has forwarded (latest first). *)
Record World := {
  registry : State;
  sent : list Sent
}.

Definition on_registry {A} (m : M State A) : M World A :=
  fun w =>
    let '(r, st) := m (registry w) in
    (r, {| registry := st; sent := sent w |}).

(** A call of a send method on the session's connection; [send_throws] is
    what the provider does with it. *)
Definition forward (send_throws : bool) (c : option Connection)
    (payload : Connection -> Sent) : M World unit :=
  match c with
  | None => throw "TypeError"
  | Some c =>
      if send_throws then throw "send failed"
      else modify (fun w => {| registry := registry w; sent := payload c :: sent w |})
  end.

Definition DEFAULT_MIME_TYPE : string := "audio/pcm;rate=16000".

Definition touch (now : Z) (s : GeminiSession) : GeminiSession :=
  {| sessionId := sessionId s; userId := userId s;
     geminiConnection := geminiConnection s;
     isActive := isActive s;
     createdAt := createdAt s; lastActivity := now |}.

Definition send_message_body (now : Z) (send_throws : bool)
    (sessionId : option string) (message : option Message)
    (messageType ephemeralToken : option string) : M World Response :=
  match JS.present sessionId with
  | None => ret (respond_error 400 "sessionId is required")
  | Some sessionId =>
      let* sessionData := on_registry (sessions_get sessionId) in
      match sessionData with
      | None => ret (respond_error 404 "Session not found or inactive")
      | Some sessionData =>
          if negb (isActive sessionData)
          then ret (respond_error 404 "Session not found or inactive")
          else
            let messageType :=
              match messageType with Some t => t | None => "text" end in
            let* refused :=
              match JS.present ephemeralToken with
              | Some ephemeralToken =>
                  let* tokenValidation :=
                    on_registry
                      (runQuery (Tokens.validateEphemeralToken now ephemeralToken)) in
                  if negb (Tokens.isValid tokenValidation)
                  then ret (Some (respond_error 403 (validation_failed tokenValidation)))
                  else
                    let* _ :=
                      on_registry
                        (runMutation
                           (Tokens.updateTokenUsage now ephemeralToken None (Some 1))) in
                    ret None
              | None => ret None
              end in
            match refused with
            | Some response => ret response
            | None =>
                try_catch
                  (let* _ :=
                     if String.eqb messageType "text" then
                       forward send_throws (geminiConnection sessionData)
                         (fun c => ClientContent c message true)
                     else if String.eqb messageType "audio" then
                       match message with
                       | None => throw "TypeError"
                       | Some (TextMessage _) =>
                           forward send_throws (geminiConnection sessionData)
                             (fun c => RealtimeInput c None DEFAULT_MIME_TYPE)
                       | Some (AudioMessage audioData mimeType) =>
                           forward send_throws (geminiConnection sessionData)
                             (fun c =>
                                RealtimeInput c audioData
                                  (match JS.present mimeType with
                                   | Some m => m
                                   | None => DEFAULT_MIME_TYPE
                                   end))
                       end
                     else ret tt in
                   let* _ :=
                     on_registry (sessions_set sessionId (touch now sessionData)) in
                   ret (respond (StatusBody "message_sent")))
                  (fun _ => ret (respond_error 500 "Failed to send message"))
            end
      end
  end.

(** The [send_message] case inside the handler's outer [try]/[catch]. *)
Definition send_message (now : Z) (send_throws : bool)
    (sessionId : option string) (message : option Message)
    (messageType ephemeralToken : option string) : M World Response :=
  try_catch
    (send_message_body now send_throws sessionId message messageType ephemeralToken)
    (fun _ => ret (respond_error 500 "Internal server error")).


(** The other cases of the handler, run on a world. *)
Definition request (now : Z) (r : Request) : M World Response :=
  on_registry (geminiLiveProxy now r).

(** *** [list_sessions] *)

Record SessionSummary := {
  l_sessionId : string;
  l_userId : string;
  l_isActive : bool;
  l_createdAt : Z;
  l_lastActivity : Z
}.

Definition session_summary (s : GeminiSession) : SessionSummary :=
  {| l_sessionId := sessionId s; l_userId := userId s; l_isActive := isActive s;
     l_createdAt := createdAt s; l_lastActivity := lastActivity s |}.

(** [Array.from(activeSessions.values()).map(...)] and its length; the
    order of the listing (insertion order in the source) is not
    represented. *)
Definition list_sessions (st : State) : list SessionSummary * nat :=
  let sessions := List.map (fun entry => session_summary (snd entry))
                           (map_to_list (activeSessions st)) in
  (sessions, List.length sessions).

(** *** The provider's [onmessage] callback *)

Definition onmessage (now : Z) (sid : string) : M State unit :=
  let* sessionData := sessions_get sid in
  match sessionData with
  | Some s => sessions_set sid (touch now s)
  | None => ret tt
  end.

End Messaging.

(** ** The rest of the browser side: [getTimeUntilExpiration] and
    [AutoTokenManager] *)

Module TokenClient.
Import Eff TokenService.

(** A scheduled [setTimeout]: its id, its delay, and the token record its
    callback has captured. *)
Record Timer := {
  timer_id : nat;
  delay : Z;
  captured : TokenInfo
}.

(** An [AutoTokenManager]: the timer id it holds in [refreshTimer], the
    timer that is scheduled and has neither fired nor been cleared, the next
    id [setTimeout] hands out, and the records passed to [onTokenRefresh]
    (latest first). *)
Record Manager := {
  refreshTimer : option nat;
  scheduled : option Timer;
  next_timer : nat;
  notified : list TokenInfo
}.

Record Client := {
  browser : Browser;
  manager : Manager
}.

Definition new_manager : Manager :=
  {| refreshTimer := None; scheduled := None; next_timer := 1; notified := [] |}.

Definition on_browser {A} (m : M Browser A) : M Client A :=
  fun c =>
    let '(r, b) := m (browser c) in
    (r, {| browser := b; manager := manager c |}).

Definition on_manager (f : Manager -> Manager) : M Client unit :=
  modify (fun c => {| browser := browser c; manager := f (manager c) |}).

(** [clearTimeout(id)] *)
Definition clearTimeout (id : nat) (m : Manager) : Manager :=
  {| refreshTimer := refreshTimer m;
     scheduled :=
       match scheduled m with
       | Some t => if Nat.eqb (timer_id t) id then None else Some t
       | None => None
       end;
     next_timer := next_timer m;
     notified := notified m |}.

(** [this.refreshTimer = setTimeout(callback, delay)] *)
Definition setTimeout (d : Z) (info : TokenInfo) (m : Manager) : Manager :=
  {| refreshTimer := Some (next_timer m);
     scheduled := Some {| timer_id := next_timer m; delay := d; captured := info |};
     next_timer := S (next_timer m);
     notified := notified m |}.

(** [this.onTokenRefresh?.(tokenInfo)] *)
Definition notify (info : TokenInfo) (m : Manager) : Manager :=
  {| refreshTimer := refreshTimer m; scheduled := scheduled m;
     next_timer := next_timer m; notified := info :: notified m |}.

Definition REFRESH_MARGIN_MS : Z := 5 * 60 * 1000.

(** [if (this.refreshTimer)]: the id the test finds, [null] and [0] being
    falsy. *)
Definition held_timer (r : option nat) : option nat :=
  match r with
  | Some (S n) => Some (S n)
  | _ => None
  end.

Definition setupAutoRefresh (now : Z) (tokenInfo : TokenInfo) : M Client unit :=
  let* held := gets (fun c => refreshTimer (manager c)) in
  let* _ :=
    match held_timer held with
    | Some id => on_manager (clearTimeout id)
    | None => ret tt
    end in
  let refreshTime := expiresAt tokenInfo - now - REFRESH_MARGIN_MS in
  if refreshTime >? 0 then on_manager (setTimeout refreshTime tokenInfo)
  else ret tt.

Definition destroy : M Client unit :=
  let* held := gets (fun c => refreshTimer (manager c)) in
  match held_timer held with
  | Some id =>
      let* _ := on_manager (clearTimeout id) in
      on_manager (fun m =>
        {| refreshTimer := None; scheduled := scheduled m;
           next_timer := next_timer m; notified := notified m |})
  | None => ret tt
  end.

Section Platform.

Variable JSON_parse : string -> option TokenInfo.
Variable JSON_stringify : TokenInfo -> string.

(** [now] is the clock read inside [getTokenInfo], [now'] the one read by
    the subtraction. *)
Definition getTimeUntilExpiration (now now' : Z) : M Browser (option Z) :=
  let* tokenInfo := getTokenInfo JSON_parse now in
  match tokenInfo with
  | None => ret None
  | Some tokenInfo =>
      let msUntilExpiration := expiresAt tokenInfo - now' in
      ret (Some (JS.math_max 0 (msUntilExpiration / (60 * 1000))))
  end.

(** [ensureValidToken]: [generated] is what the [generateToken] function
    resolves to ([None] when it rejects); [t1], [t2] and [t3] are the clock
    read inside [getTokenInfo], by the expiry test, and by
    [setupAutoRefresh]. *)
Definition ensureValidToken (t1 t2 t3 : Z) (generated : option TokenInfo)
    : M Client string :=
  let regenerate : M Client TokenInfo :=
    match generated with
    | None => throw "generateToken rejected"
    | Some tokenInfo =>
        let* _ := on_browser (storeToken JSON_stringify tokenInfo) in
        let* _ := on_manager (notify tokenInfo) in
        ret tokenInfo
    end in
  let* cached := on_browser (getTokenInfo JSON_parse t1) in
  let* tokenInfo :=
    match cached with
    | None => regenerate
    | Some tokenInfo => if t2 >? expiresAt tokenInfo then regenerate else ret tokenInfo
    end in
  let* held := gets (fun c => refreshTimer (manager c)) in
  let* _ :=
    match held_timer held with
    | None => setupAutoRefresh t3 tokenInfo
    | Some _ => ret tt
    end in
  ret (token tokenInfo).

(** Successive calls of [ensureValidToken], each with its clock reads and
    with what [generateToken] would resolve to if that call reached it; the
    state after the last one. *)
Fixpoint ensure_repeatedly (calls : list (Z * Z * Z * option TokenInfo))
    (c : Client) : Client :=
  match calls with
  | [] => c
  | (t1, t2, t3, generated) :: calls' =>
      ensure_repeatedly calls' (snd (ensureValidToken t1 t2 t3 generated c))
  end.

(** The callback of the scheduled timer, run when the timer fires:
    [refreshed] is what the [refreshToken] function resolves to, its
    [token] and [expiresAt] ([None] when it rejects). *)
Definition timer_fires (now : Z) (refreshed : option (string * Z)) : M Client unit :=
  let* due := gets (fun c => scheduled (manager c)) in
  match due with
  | None => ret tt
  | Some t =>
      let tokenInfo := captured t in
      let* _ := on_manager (fun m =>
                  {| refreshTimer := refreshTimer m; scheduled := None;
                     next_timer := next_timer m; notified := notified m |}) in
      try_catch
        (let* currentToken := on_browser getToken in
         match JS.present currentToken with
         | None => ret tt
         | Some currentToken =>
             match refreshed with
             | None => throw "refreshToken rejected"
             | Some (newToken, newExpiresAt) =>
                 let newTokenInfo :=
                   {| token := newToken;
                      expiresAt := newExpiresAt;
                      maxSessions := maxSessions tokenInfo;
                      maxMessages := maxMessages tokenInfo;
                      tokenId := tokenId tokenInfo |} in
                 let* _ := on_browser (storeToken JSON_stringify newTokenInfo) in
                 let* _ := on_manager (notify newTokenInfo) in
                 setupAutoRefresh now newTokenInfo
             end
         end)
        (fun _ =>
           let* _ := on_browser (warn "Failed to refresh token:") in
           on_browser clearToken)
  end.

End Platform.

End TokenClient.
(** * The specification's wording, and sample data

    The order of checks as the specification words it, the invariants of
    the store, and the concrete stores, requests and environments on which
    the properties below are exercised. *)

(** A list of checks, each with the reason reported when it fails: the
    first failure wins. *)
Fixpoint first_failure (checks : list (bool * Tokens.Reason)) : option Tokens.Reason :=
  match checks with
  | [] => None
  | (passed, reason) :: rest => if passed then first_failure rest else Some reason
  end.

(** Document ids are distinct and below the next id the database hands
    out. *)
Definition well_formed (st : Tokens.Store) : Prop :=
  NoDup (List.map Tokens._id (Tokens.ephemeralTokens st))
  /\ Forall (fun d => (Tokens._id d < Tokens.nextId st)%nat) (Tokens.ephemeralTokens st).

Definition consistent (st : Tokens.Store) : Prop :=
  well_formed st /\ Tokens.quota_respected st.

(** The secret of a test run: bytes [0, 7, 14, ...]. *)
Definition sample_entropy : Secret.Entropy :=
  Secret.CryptoRandom
    (fun i => match Byte.of_nat (7 * i) with Some b => b | None => Byte.x00 end).

Definition sample_token : string :=
  Eval vm_compute in Secret.generateSecureToken sample_entropy 1000.

(** A store with one user, who was issued one token with the default bounds
    (5 sessions, 1000 messages, one hour) at time 1000. *)
Definition sample_issue : Z * Tokens.Op :=
  (1000, Tokens.Generate sample_entropy "user_1" None None None).

Definition sample_store : Tokens.Store :=
  Tokens.run [sample_issue] (Tokens.empty_store ["user_1"]).

(** The record of that token. *)
Definition sample_doc : Tokens.TokenDoc :=
  {| Tokens._id := 0;
     Tokens.token := sample_token;
     Tokens.userId := "user_1";
     Tokens.expiresAt := 3601000;
     Tokens.sessionsUsed := 0;
     Tokens.messagesUsed := 0;
     Tokens.maxSessions := 5;
     Tokens.maxMessages := 1000;
     Tokens.isActive := true;
     Tokens.createdAt := 1000;
     Tokens.lastUsed := 1000;
     Tokens.deactivatedAt := None |}.

(** One session metered against the sample token. *)
Definition metered_history : list (Z * Tokens.Op) :=
  [sample_issue; (2000, Tokens.UpdateUsage sample_token (Some 1) None)].

(** Six sessions added at once to the sample token, which allows five. *)
Definition unmetered_history : list (Z * Tokens.Op) :=
  [sample_issue; (2000, Tokens.UpdateUsage sample_token (Some 6) None)].

(** Whether the entries [l] hold one for [sid] that the sweep finds idle. *)
Definition idle_in (now : Z) (l : list (string * Proxy.GeminiSession)) (sid : string) : bool :=
  List.existsb (fun entry => String.eqb (fst entry) sid && Proxy.timed_out now (snd entry)) l.

(** A proxy with one open session, last active at time 1000, over the sample
    store. *)
Definition sample_connection : Proxy.Connection :=
  {| Proxy.handle := 1; Proxy.close_throws := true |}.

Definition sample_session : Proxy.GeminiSession :=
  {| Proxy.sessionId := "gemini-1000-abc";
     Proxy.userId := "user_1";
     Proxy.geminiConnection := Some sample_connection;
     Proxy.isActive := true;
     Proxy.createdAt := 1000;
     Proxy.lastActivity := 1000 |}.

Definition sample_proxy : Proxy.State :=
  {| Proxy.activeSessions := <["gemini-1000-abc" := sample_session]> ∅;
     Proxy.db := sample_store;
     Proxy.events := [] |}.

(** The specification's scenario A: a fresh proxy over a store with one user,
    who is issued a token for three sessions at time 1000; four providers
    that all accept the connection. *)
Definition fresh_proxy : Proxy.State :=
  {| Proxy.activeSessions := ∅;
     Proxy.db := Tokens.empty_store ["user_1"];
     Proxy.events := [] |}.

Definition scenario_grant : Tokens.Generated :=
  {| Tokens.g_token := sample_token;
     Tokens.g_expiresAt := 3601000;
     Tokens.g_maxSessions := 3;
     Tokens.g_maxMessages := 1000;
     Tokens.g_tokenId := 0%nat |}.

Definition scenario_db : Tokens.Store :=
  snd (Tokens.generateEphemeralToken sample_entropy 1000 "user_1" (Some 3) None None
         (Tokens.empty_store ["user_1"])).

Definition scenario_provider (n : nat) (sid : string) : Proxy.Provider :=
  {| Proxy.newSessionId := sid;
     Proxy.connect := Some {| Proxy.handle := n; Proxy.close_throws := false |} |}.

(** A browser whose cache holds the sample token and, as its record, the
    text [raw]. *)
Definition cache_holding (raw : string) : TokenService.Browser :=
  {| TokenService.window_defined := true;
     TokenService.storage_blocked := false;
     TokenService.localStorage :=
       <[TokenService.TOKEN_INFO_KEY := raw]>
         (<[TokenService.TOKEN_KEY := sample_token]> ∅);
     TokenService.console := [] |}.

(** A platform on which the texts at hand do not parse; on the empty text
    and on a record cut off in the middle every JSON parser agrees with it. *)
Definition rejecting_parse (text : string) : option TokenService.TokenInfo := None.

(** A record cut off in the middle. *)
Definition truncated_record : string := "{token:glt_AHOV".

(** What [cleanupExpiredTokens] deletes: a record past its expiry, or
    inactive. *)
Definition stale (now : Z) (d : Tokens.TokenDoc) : bool :=
  (Tokens.expiresAt d <? now) || Bool.eqb (Tokens.isActive d) false.

(** A second token for the same user, issued at time 2000 for one minute. *)
Definition second_issue : Z * Tokens.Op :=
  (2000, Tokens.Generate sample_entropy "user_1" None None (Some 1)).

Definition second_token : string :=
  Eval vm_compute in Secret.generateSecureToken sample_entropy 2000.

Definition two_token_store : Tokens.Store :=
  Tokens.run [sample_issue; second_issue] (Tokens.empty_store ["user_1"]).

(** The sample token revoked at time 2000, and operations tried on it
    afterwards. *)
Definition revoked_store : Tokens.Store :=
  Tokens.run [sample_issue; (2000, Tokens.Deactivate sample_token)]
             (Tokens.empty_store ["user_1"]).

Definition revoked_doc : Tokens.TokenDoc := Tokens.patch_deactivated 2000 sample_doc.

Definition later_history : list (Z * Tokens.Op) :=
  [(3000, Tokens.Refresh sample_token (Some 30));
   (4000, Tokens.UpdateUsage sample_token (Some 1) (Some 1));
   (5000, Tokens.Deactivate sample_token)].

(** The sample proxy as a world in which nothing has been forwarded yet, and
    a text message. *)
Definition sample_world : Messaging.World :=
  {| Messaging.registry := sample_proxy; Messaging.sent := [] |}.

Definition hello : option Messaging.Message := Some (Messaging.TextMessage "hello").



(** The sample session over a store whose token has used its five
    sessions. *)
Definition used_up_doc : Tokens.TokenDoc := Tokens.patch_usage 5 0 1500 sample_doc.

Definition used_up_world : Messaging.World :=
  {| Messaging.registry :=
       {| Proxy.activeSessions := Proxy.activeSessions sample_proxy;
          Proxy.db :=
            Tokens.run [sample_issue; (1500, Tokens.UpdateUsage sample_token (Some 5) None)]
                       (Tokens.empty_store ["user_1"]);
          Proxy.events := [] |};
     Messaging.sent := [] |}.


(** The record of the sample token as the browser caches it, and a platform
    stand-in that writes and reads that one record. *)
Definition sample_info : TokenService.TokenInfo :=
  {| TokenService.token := sample_token;
     TokenService.expiresAt := 3601000;
     TokenService.maxSessions := 5;
     TokenService.maxMessages := 1000;
     TokenService.tokenId := "0" |}.

Definition sample_record : string := "{sample_info}".

Definition sample_stringify (info : TokenService.TokenInfo) : string := sample_record.

Definition sample_parse (text : string) : option TokenService.TokenInfo :=
  if String.eqb text sample_record then Some sample_info else None.

(** A browser with an empty cache. *)
Definition empty_browser : TokenService.Browser :=
  {| TokenService.window_defined := true;
     TokenService.storage_blocked := false;
     TokenService.localStorage := ∅;
     TokenService.console := [] |}.

(** A manager whose renewal timer is pending, over a cache that holds the
    sample record. *)
Definition sample_timer : TokenClient.Timer :=
  {| TokenClient.timer_id := 1;
     TokenClient.delay := 3300000;
     TokenClient.captured := sample_info |}.

Definition waiting_client : TokenClient.Client :=
  {| TokenClient.browser :=
       snd (TokenService.storeToken sample_stringify sample_info empty_browser);
     TokenClient.manager :=
       {| TokenClient.refreshTimer := Some 1%nat;
          TokenClient.scheduled := Some sample_timer;
          TokenClient.next_timer := 2;
          TokenClient.notified := [sample_info] |} |}.

(** A page that has just loaded: nothing cached, a new manager. *)
Definition fresh_client : TokenClient.Client :=
  {| TokenClient.browser := empty_browser;
     TokenClient.manager := TokenClient.new_manager |}.

(** * Properties *)

(** ** The format of generated secrets *)

Section SecretFormat.
Import Secret.

Lemma chars_alnum (k : nat) :
  (k < 62)%nat ->
  exists c, String.get k chars = Some c /\ is_alnum c = true.
Proof.
  intros Hk.
  do 62 (destruct k as [|k]; [eexists; split; reflexivity|]).
  lia.
Qed.

Lemma append_char_at_alnum (result : string) (k : Z) :
  0 <= k < chars_length ->
  exists c, JS.append_char_at result chars k = result +:+ String c EmptyString
            /\ is_alnum c = true.
Proof.
  intros [Hlo Hhi]. unfold JS.append_char_at.
  destruct (chars_alnum (Z.to_nat k)) as (c & Hget & Hc).
  - change chars_length with 62 in Hhi. lia.
  - exists c. apply Z.leb_le in Hlo. rewrite Hlo, Hget. auto.
Qed.

Lemma append_cons (c : ascii) (a b : string) :
  String c a +:+ b = String c (a +:+ b).
Proof. reflexivity. Qed.

Lemma append_assoc (a b c : string) : (a +:+ b) +:+ c = a +:+ (b +:+ c).
Proof.
  induction a as [|x a IH]; [reflexivity|].
  rewrite !append_cons. now rewrite IH.
Qed.

Lemma append_empty_r (a : string) : a +:+ "" = a.
Proof.
  induction a as [|x a IH]; [reflexivity|].
  rewrite append_cons. now rewrite IH.
Qed.

(** The loop appends exactly [n] alphanumeric characters. *)
Lemma fill_spec (pick : nat -> Z) :
  (forall i, 0 <= pick i < chars_length) ->
  forall n i result,
  exists r, fill pick i n result = result +:+ r
            /\ String.length r = n
            /\ all_chars is_alnum r = true.
Proof.
  intros Hpick n. induction n as [|n IH]; intros i result; simpl.
  - exists "". now rewrite append_empty_r.
  - destruct (append_char_at_alnum result (pick i) (Hpick i)) as (c & -> & Hc).
    destruct (IH (S i) (result +:+ String c "")) as (r & -> & Hlen & Hall).
    exists (String c r). rewrite append_assoc. simpl.
    rewrite Hlen, Hc, Hall. auto.
Qed.

Lemma take_alnum_append (r rest : string) :
  all_chars is_alnum r = true ->
  take_alnum (String.length r) (r +:+ rest) = Some rest.
Proof.
  induction r as [|c r IH]; [reflexivity|].
  rewrite append_cons. simpl.
  intros H. apply andb_true_iff in H as [Hc Hr]. now rewrite Hc, IH.
Qed.

Lemma byte_index_range (b : Byte.byte) :
  0 <= Z.of_N (Byte.to_N b) mod chars_length < chars_length.
Proof. apply Z.mod_pos_bound. reflexivity. Qed.

Lemma floor_scaled_range (r : Sample) (k : Z) :
  0 < k -> in_unit_interval r -> 0 <= floor_scaled r k < k.
Proof.
  intros Hk [Hlo Hhi]. unfold floor_scaled. split.
  - apply Z.div_pos; nia.
  - apply Z.div_lt_upper_bound; nia.
Qed.

Lemma pick_of_range (e : Entropy) :
  entropy_ok e -> forall i, 0 <= pick_of e i < chars_length.
Proof.
  destruct e as [randomValues | random]; simpl; intros H i.
  - apply byte_index_range.
  - apply floor_scaled_range; [reflexivity | apply H].
Qed.

Lemma string_of_uint_digits (d : Decimal.uint) :
  all_chars is_digit (NilEmpty.string_of_uint d) = true.
Proof. induction d; simpl; auto. Qed.

(** A clock value is printed as a non-empty run of decimal digits. *)
Lemma number_to_string_digits (n : Z) :
  0 <= n ->
  exists d ds, JS.number_to_string n = String d ds
               /\ is_digit d = true /\ all_chars is_digit ds = true.
Proof.
  intros Hn. unfold JS.number_to_string.
  destruct n as [|p|p]; [| |lia].
  - exists "0"%char, "". auto.
  - simpl. pose proof (string_of_uint_digits (Pos.to_uint p)) as Hd.
    pose proof (Unsigned.to_uint_nonnil p) as Hnil.
    destruct (Pos.to_uint p); try congruence; simpl in *;
      eexists _, _; (split; [reflexivity|]); auto.
Qed.

(** C7. Every secret [generateSecureToken] produces, from the secure
    source or from the fallback, at a clock value counted from the epoch,
    matches [^glt_[A-Za-z0-9]{32}_[0-9]+$]: the literal prefix, 32
    alphanumeric characters, an underscore and the decimal digits of the
    millisecond timestamp. *)
Theorem generated_secret_matches_format (e : Entropy) (now : Z) :
  entropy_ok e -> 0 <= now ->
  matches_format (generateSecureToken e now) = true.
Proof.
  intros He Hnow. unfold generateSecureToken.
  destruct (fill_spec (pick_of e) (pick_of_range e He) 32 0%nat "")
    as (r & -> & Hlen & Hall).
  destruct (number_to_string_digits now Hnow) as (d & ds & -> & Hd & Hds).
  change ("" +:+ r) with r.
  change (matches_format ("glt_" +:+ r +:+ "_" +:+ String d ds))
    with (match take_alnum 32 (r +:+ String "_" (String d ds)) with
          | Some (String "_" (String d' ds')) =>
              is_digit d' && all_chars is_digit ds'
          | _ => false
          end).
  rewrite <- Hlen at 1.
  rewrite take_alnum_append by exact Hall.
  now rewrite Hd, Hds.
Qed.

End SecretFormat.

(** The secret generated from the sample bytes at an actual clock value. *)
Lemma generated_secret_matches_format_witness :
  Secret.entropy_ok sample_entropy /\ 0 <= 1717171717171 /\
  Secret.matches_format (Secret.generateSecureToken sample_entropy 1717171717171) = true.
Proof.
  split; [exact I|]. split; [lia|].
  apply (generated_secret_matches_format sample_entropy 1717171717171); [exact I | lia].
Defined.

(** The format check agrees with the repository's own format tests. *)
Example format_accepts_valid_token :
  Secret.matches_format "glt_abcdefghijklmnopqrstuvwxyz123456_1234567890" = true.
Proof. reflexivity. Qed.

Example format_rejects_invalid_tokens :
  List.map Secret.matches_format
    ["invalid_token"; "glt_short_123"; "not_glt_token_1234567890"; "";
     "glt__1234567890"]
  = [false; false; false; false; false].
Proof. reflexivity. Qed.

Example generated_secret_example :
  Secret.generateSecureToken sample_entropy 1717171717171
  = "glt_AHOVcjqx4BIPWdkry5CJQXelsz6DKRYf_1717171717171".
Proof. reflexivity. Qed.

(** ** The token ledger *)

Section Ledger.
Import Eff Tokens.

Implicit Types (st : Store) (d : TokenDoc) (tok : string) (now : Z).

(** Patching the record a secret designates, by its id, leaves it the
    record that secret designates. *)
Lemma find_patched tok (f : TokenDoc -> TokenDoc) (docs : list TokenDoc) d :
  (forall x, token (f x) = token x) ->
  List.find (fun x => String.eqb (token x) tok) docs = Some d ->
  List.find (fun x => String.eqb (token x) tok)
    (List.map (fun x => if Nat.eqb (_id x) (_id d) then f x else x) docs)
  = Some (f d).
Proof.
  intros Hf. induction docs as [|x docs IH]; simpl; [discriminate|].
  destruct (String.eqb (token x) tok) eqn:Hx.
  - intros [= ->]. rewrite Nat.eqb_refl. now rewrite Hf, Hx.
  - intros Hd. destruct (Nat.eqb (_id x) (_id d)); rewrite ?Hf, Hx; auto.
Qed.

Lemma lookup_patched tok (f : TokenDoc -> TokenDoc) st d :
  (forall x, token (f x) = token x) ->
  lookup tok st = Some d ->
  lookup tok (snd (db_patch (_id d) f st)) = Some (f d).
Proof. intros Hf Hd. now apply find_patched. Qed.

(** *** What each mutation does, by whether the secret is known *)

Lemma updateTokenUsage_missing now tok incS incM st :
  lookup tok st = None ->
  updateTokenUsage now tok incS incM st = (Thrown "Token not found", st).
Proof.
  unfold lookup, updateTokenUsage, bind, first_by_token, gets.
  now intros ->.
Qed.

Lemma updateTokenUsage_found now tok incS incM st d :
  lookup tok st = Some d ->
  let s' := sessionsUsed d + JS.default_to incS 0 in
  let m' := messagesUsed d + JS.default_to incM 0 in
  updateTokenUsage now tok incS incM st
  = (Returned {| u_sessionsUsed := s'; u_messagesUsed := m';
                 u_maxSessions := maxSessions d; u_maxMessages := maxMessages d |},
     snd (db_patch (_id d) (patch_usage s' m' now) st)).
Proof.
  unfold lookup, updateTokenUsage, bind, first_by_token, gets.
  now intros ->.
Qed.

Lemma refreshEphemeralToken_found now tok minutes st d :
  lookup tok st = Some d -> isActive d = true ->
  let m := JS.default_to minutes TOKEN_EXPIRATION_MINUTES in
  let e' := Z.max (now + m * 60 * 1000) (expiresAt d + m * 60 * 1000) in
  refreshEphemeralToken now tok minutes st
  = (Returned {| r_token := tok; r_expiresAt := e';
                 r_sessionsUsed := sessionsUsed d; r_messagesUsed := messagesUsed d |},
     snd (db_patch (_id d) (patch_expiry e' now) st)).
Proof.
  unfold lookup, refreshEphemeralToken, bind, first_by_token, gets.
  now intros -> ->.
Qed.

Lemma deactivateEphemeralToken_found now tok st d :
  lookup tok st = Some d ->
  deactivateEphemeralToken now tok st
  = (Returned {| success := true; d_token := tok |},
     snd (db_patch (_id d) (patch_deactivated now) st)).
Proof.
  unfold lookup, deactivateEphemeralToken, bind, first_by_token, gets.
  now intros ->.
Qed.

(** *** What the validator answers *)

Lemma validateEphemeralToken_reads_only now tok st :
  snd (validateEphemeralToken now tok st) = st.
Proof.
  unfold validateEphemeralToken, bind, first_by_token, gets. simpl.
  destruct (List.find _ (ephemeralTokens st)) as [d|]; [|reflexivity].
  destruct (negb (isActive d)); [reflexivity|].
  destruct (now >? expiresAt d); [reflexivity|].
  destruct (sessionsUsed d >=? maxSessions d); [reflexivity|].
  destruct (messagesUsed d >=? maxMessages d); reflexivity.
Qed.

Lemma validate_accepts now tok st d :
  lookup tok st = Some d ->
  isActive d = true ->
  now <= expiresAt d ->
  sessionsUsed d < maxSessions d ->
  messagesUsed d < maxMessages d ->
  validateEphemeralToken now tok st = (Returned (valid d), st).
Proof.
  intros Hd Hactive Hnow Hs Hm.
  unfold validateEphemeralToken, bind, first_by_token, gets.
  unfold lookup in Hd. rewrite Hd, Hactive. simpl.
  replace (now >? expiresAt d) with false by (symmetry; rewrite Z.gtb_ltb; apply Z.ltb_ge; lia).
  replace (sessionsUsed d >=? maxSessions d) with false
    by (symmetry; rewrite Z.geb_leb; apply Z.leb_gt; lia).
  replace (messagesUsed d >=? maxMessages d) with false
    by (symmetry; rewrite Z.geb_leb; apply Z.leb_gt; lia).
  reflexivity.
Qed.

Lemma validate_refuses_sessions now tok st d :
  lookup tok st = Some d ->
  isActive d = true ->
  now <= expiresAt d ->
  maxSessions d <= sessionsUsed d ->
  validateEphemeralToken now tok st = (Returned (invalid SessionQuotaExceeded), st).
Proof.
  intros Hd Hactive Hnow Hs.
  unfold validateEphemeralToken, bind, first_by_token, gets.
  unfold lookup in Hd. rewrite Hd, Hactive. simpl.
  replace (now >? expiresAt d) with false by (symmetry; rewrite Z.gtb_ltb; apply Z.ltb_ge; lia).
  replace (sessionsUsed d >=? maxSessions d) with true
    by (symmetry; rewrite Z.geb_leb; apply Z.leb_le; lia).
  reflexivity.
Qed.

(** C2. [validate] returns what the fixed order of checks prescribes:
    an unknown secret is [NotFound]; for a known one the first failing
    check among active, not past [expiresAt], sessions left, messages left
    gives the reason ([Deactivated], [Expired], [SessionQuotaExceeded],
    [MessageQuotaExceeded]); when none fails the token is valid. The store
    after the call is the store before it. *)
Theorem validate_first_failure_wins now tok st :
  validateEphemeralToken now tok st
  = (Returned
       (match lookup tok st with
        | None => invalid NotFound
        | Some d =>
            match first_failure
                    [ (isActive d, Deactivated);
                      (now <=? expiresAt d, Expired);
                      (sessionsUsed d <? maxSessions d, SessionQuotaExceeded);
                      (messagesUsed d <? maxMessages d, MessageQuotaExceeded) ] with
            | Some reason => invalid reason
            | None => valid d
            end
        end),
     st).
Proof.
  unfold validateEphemeralToken, bind, first_by_token, gets, lookup.
  destruct (List.find _ (ephemeralTokens st)) as [d|]; [|reflexivity].
  unfold first_failure, ret.
  destruct (isActive d); simpl; [|reflexivity].
  rewrite Z.gtb_ltb, Z.ltb_antisym.
  destruct (now <=? expiresAt d); simpl; [|reflexivity].
  rewrite Z.geb_leb, Z.leb_antisym.
  destruct (sessionsUsed d <? maxSessions d); simpl; [|reflexivity].
  rewrite Z.geb_leb, Z.leb_antisym.
  destruct (messagesUsed d <? maxMessages d); reflexivity.
Qed.

(** C6. [updateUsage] on a secret with no record throws "Token not found"
    and leaves the store as it was; on a known secret it adds the
    increments (an omitted one counts 0) to the stored counters whatever
    the bounds are, sets [lastUsed] to the time of the call, and returns
    the new counters with the token's unchanged [maxSessions] and
    [maxMessages]. The sums are the exact ones for counters and increments
    that are safe integers with safe sums, the range on which the handler's
    double-precision [+] does not round. *)
Theorem updateUsage_not_found_or_adds now tok incS incM st :
  (forall d, lookup tok st = Some d ->
     JS.exact_sum (sessionsUsed d) (JS.default_to incS 0)
     /\ JS.exact_sum (messagesUsed d) (JS.default_to incM 0)) ->
  match lookup tok st with
  | None =>
      updateTokenUsage now tok incS incM st = (Thrown "Token not found", st)
  | Some d =>
      exists st' d',
        updateTokenUsage now tok incS incM st
        = (Returned {| u_sessionsUsed := sessionsUsed d + JS.default_to incS 0;
                       u_messagesUsed := messagesUsed d + JS.default_to incM 0;
                       u_maxSessions := maxSessions d;
                       u_maxMessages := maxMessages d |}, st')
        /\ lookup tok st' = Some d'
        /\ sessionsUsed d' = sessionsUsed d + JS.default_to incS 0
        /\ messagesUsed d' = messagesUsed d + JS.default_to incM 0
        /\ lastUsed d' = now
        /\ maxSessions d' = maxSessions d
        /\ maxMessages d' = maxMessages d
        /\ expiresAt d' = expiresAt d
        /\ isActive d' = isActive d
  end.
Proof.
  intros _.
  destruct (lookup tok st) as [d|] eqn:Hd.
  - eexists _, _. split; [now apply updateTokenUsage_found|].
    split; [now apply lookup_patched|]. simpl. tauto.
  - now apply updateTokenUsage_missing.
Qed.

(** One session counted against the sample token at time 2000. *)
Lemma updateUsage_not_found_or_adds_witness :
  exists st' d',
    updateTokenUsage 2000 sample_token (Some 1) None sample_store
    = (Returned {| u_sessionsUsed := 1; u_messagesUsed := 0;
                   u_maxSessions := 5; u_maxMessages := 1000 |}, st')
    /\ lookup sample_token st' = Some d'
    /\ sessionsUsed d' = 1 /\ messagesUsed d' = 0 /\ lastUsed d' = 2000.
Proof.
  assert (Hsafe : forall d, lookup sample_token sample_store = Some d ->
            JS.exact_sum (sessionsUsed d) (JS.default_to (Some 1) 0)
            /\ JS.exact_sum (messagesUsed d) (JS.default_to None 0)).
  { intros d Hd. vm_compute in Hd. injection Hd as <-.
    vm_compute. repeat split; discriminate. }
  pose proof (updateUsage_not_found_or_adds 2000 sample_token (Some 1) None
                sample_store Hsafe) as H.
  change (lookup sample_token sample_store) with (Some sample_doc) in H.
  destruct H as (st' & d' & Hrun & Hd' & Hs & Hm & Hl & _).
  exists st', d'. repeat split; assumption.
Defined.


Lemma patch_deactivated_twice t1 t2 d :
  patch_deactivated t2 (patch_deactivated t1 d) = patch_deactivated t2 d.
Proof. reflexivity. Qed.

Lemma db_patch_deactivated_twice t1 t2 id st :
  snd (db_patch id (patch_deactivated t2) (snd (db_patch id (patch_deactivated t1) st)))
  = snd (db_patch id (patch_deactivated t2) st).
Proof.
  unfold db_patch, modify, with_tokens; simpl. f_equal.
  rewrite List.map_map. apply List.map_ext. intros x.
  destruct (Nat.eqb (_id x) id) eqn:Hx; simpl; rewrite Hx; reflexivity.
Qed.

(** C5, as the code has it. On an existing token [deactivate] succeeds,
    also when the token is already inactive; a second call leaves the store
    a single call made at the time of the second would leave: the token
    inactive, with [deactivatedAt] the time of the latest call. *)
Theorem deactivate_twice_as_latest t1 t2 tok st d :
  lookup tok st = Some d ->
  let st1 := snd (deactivateEphemeralToken t1 tok st) in
  deactivateEphemeralToken t2 tok st1
  = (Returned {| success := true; d_token := tok |},
     snd (deactivateEphemeralToken t2 tok st))
  /\ exists d',
       lookup tok (snd (deactivateEphemeralToken t2 tok st1)) = Some d'
       /\ isActive d' = false
       /\ deactivatedAt d' = Some t2.
Proof.
  intros Hd st1.
  assert (H1 : lookup tok st1 = Some (patch_deactivated t1 d)).
  { subst st1. rewrite (deactivateEphemeralToken_found t1 tok st d Hd).
    now apply lookup_patched. }
  rewrite (deactivateEphemeralToken_found t2 tok st1 _ H1).
  rewrite (deactivateEphemeralToken_found t2 tok st d Hd).
  subst st1. rewrite (deactivateEphemeralToken_found t1 tok st d Hd).
  cbn [snd _id patch_deactivated]. rewrite db_patch_deactivated_twice.
  split; [reflexivity|].
  exists (patch_deactivated t2 d). split; [now apply lookup_patched|]. auto.
Qed.

End Ledger.

(** ** The quota invariant *)

Section Quota.
Import Eff Tokens.

Implicit Types (st : Store) (d : TokenDoc) (tok : string) (now : Z).

Lemma consistent_empty (users : list string) : consistent (empty_store users).
Proof. repeat split; simpl; constructor. Qed.

Lemma same_id_same_doc (docs : list TokenDoc) x y :
  NoDup (List.map _id docs) -> In x docs -> In y docs -> _id x = _id y -> x = y.
Proof.
  induction docs as [|z docs IH]; simpl; [tauto|].
  intros Hnd Hx Hy Hid. inversion Hnd as [|? ? Hnotin Hnd']; subst.
  destruct Hx as [->|Hx], Hy as [->|Hy]; auto.
  - exfalso. apply Hnotin. rewrite Hid. now apply list_elem_of_In, List.in_map.
  - exfalso. apply Hnotin. rewrite <- Hid. now apply list_elem_of_In, List.in_map.
Qed.

Lemma lookup_in tok st d : lookup tok st = Some d -> In d (ephemeralTokens st).
Proof. intros H. now apply List.find_some in H. Qed.

(** A patch that keeps ids, and keeps the patched record within its
    bounds, keeps the store consistent. *)
Lemma db_patch_consistent id (f : TokenDoc -> TokenDoc) st :
  (forall x, _id (f x) = _id x) ->
  (forall x, In x (ephemeralTokens st) -> _id x = id -> within_quota x ->
             within_quota (f x)) ->
  consistent st -> consistent (snd (db_patch id f st)).
Proof.
  intros Hid Hq [[Hnd Hlt] Hquota]. unfold db_patch, modify, consistent,
    well_formed, quota_respected in *. simpl.
  set (g := fun x => if Nat.eqb (_id x) id then f x else x).
  assert (Hg : forall x, _id (g x) = _id x).
  { intros x. unfold g. destruct (Nat.eqb (_id x) id); auto. }
  repeat split.
  - rewrite List.map_map.
    erewrite List.map_ext; [exact Hnd|]. intros x. apply Hg.
  - rewrite !List.Forall_forall in *. intros y Hy.
    apply List.in_map_iff in Hy as (x & <- & Hx). rewrite Hg. now apply Hlt.
  - rewrite !List.Forall_forall in *. intros y Hy.
    apply List.in_map_iff in Hy as (x & <- & Hx). unfold g.
    destruct (Nat.eqb (_id x) id) eqn:E; [|now apply Hquota].
    apply Nat.eqb_eq in E. apply Hq; auto.
Qed.

Lemma NoDup_map_filter {A B} (f : A -> B) (p : A -> bool) (l : list A) :
  NoDup (List.map f l) -> NoDup (List.map f (List.filter p l)).
Proof.
  induction l as [|x l IH]; simpl; [auto|].
  intros Hnd. inversion Hnd as [|? ? Hnotin Hnd']; subst.
  destruct (p x); simpl; [|auto].
  constructor; [|auto].
  intros Hin. apply Hnotin.
  apply list_elem_of_In, List.in_map_iff in Hin as (y & Hy & Hin).
  apply List.filter_In in Hin as [Hin _].
  rewrite <- Hy. now apply list_elem_of_In, List.in_map.
Qed.

Lemma db_delete_consistent id st :
  consistent st -> consistent (snd (db_delete id st)).
Proof.
  intros [[Hnd Hlt] Hquota]. unfold db_delete, modify, consistent,
    well_formed, quota_respected in *. simpl.
  repeat split.
  - now apply NoDup_map_filter.
  - rewrite !List.Forall_forall in *. intros y Hy.
    apply List.filter_In in Hy as [Hy _]. auto.
  - rewrite !List.Forall_forall in *. intros y Hy.
    apply List.filter_In in Hy as [Hy _]. auto.
Qed.

Lemma delete_all_consistent (ids : list nat) st :
  consistent st -> consistent (snd (delete_all ids st)).
Proof.
  revert st. induction ids as [|id ids IH]; intros st H; [exact H|].
  simpl. unfold bind.
  destruct (db_delete id st) as [[[]|e] st1] eqn:E.
  - apply IH. change st1 with (snd (Returned tt, st1)). rewrite <- E.
    now apply db_delete_consistent.
  - discriminate E.
Qed.

Lemma delete_all_returns (ids : list nat) st :
  fst (delete_all ids st) = Returned tt.
Proof.
  revert st. induction ids as [|id ids IH]; intros st; [reflexivity|].
  simpl. unfold bind. simpl. apply IH.
Qed.

Lemma db_insert_consistent (fields : nat -> TokenDoc) st :
  (forall id, _id (fields id) = id) ->
  within_quota (fields (nextId st)) ->
  consistent st -> consistent (snd (db_insert fields st)).
Proof.
  intros Hid Hq [[Hnd Hlt] Hquota]. unfold db_insert, consistent,
    well_formed, quota_respected in *. simpl.
  repeat split.
  - rewrite List.map_app. simpl. rewrite Hid.
    apply NoDup_app. split; [exact Hnd|]. split.
    + intros x Hx Hx'. apply list_elem_of_In in Hx'. destruct Hx' as [<-|[]].
      apply list_elem_of_In, List.in_map_iff in Hx as (y & Hy & Hin).
      rewrite List.Forall_forall in Hlt. apply Hlt in Hin. lia.
    + apply NoDup_singleton.
  - apply Forall_app. split.
    + eapply List.Forall_impl; [|exact Hlt]. simpl. intros; lia.
    + constructor; [rewrite Hid; lia | constructor].
  - apply Forall_app. split; [exact Hquota | constructor; [exact Hq | constructor]].
Qed.

(** One operation that keeps to the quota keeps the store consistent. *)
Lemma exec_consistent now op st :
  consistent st -> fits_quota op st -> consistent (exec now op st).
Proof.
  intros Hst Hfit. destruct op as [e uid maxS maxM minutes | tok
    | tok incS incM | tok minutes | tok | ]; simpl.
  - unfold transaction, generateEphemeralToken, bind, user_by_token, gets.
    destruct (List.find _ (users st)); [|exact Hst].
    destruct (db_insert _ st) as [[id|msg] st1] eqn:E; [|discriminate E].
    unfold ret. simpl.
    change st1 with (snd (Returned (A:=nat) id, st1)). rewrite <- E.
    apply db_insert_consistent; [reflexivity | exact Hfit | exact Hst].
  - now rewrite validateEphemeralToken_reads_only.
  - unfold transaction. simpl in Hfit.
    destruct (lookup tok st) as [d|] eqn:Hd.
    + rewrite (updateTokenUsage_found now tok incS incM st d Hd). simpl.
      apply (db_patch_consistent (_id d)); auto.
      intros x Hx Hid _.
      assert (x = d) as ->.
      { destruct Hst as [[Hnd _] _].
        eapply same_id_same_doc; eauto using lookup_in. }
      exact Hfit.
    + now rewrite (updateTokenUsage_missing now tok incS incM st Hd).
  - unfold transaction.
    destruct (lookup tok st) as [d|] eqn:Hd.
    + destruct (isActive d) eqn:Hactive.
      * rewrite (refreshEphemeralToken_found now tok minutes st d Hd Hactive).
        simpl. apply (db_patch_consistent (_id d)); auto.
      * unfold refreshEphemeralToken, bind, first_by_token, gets.
        unfold lookup in Hd. now rewrite Hd, Hactive.
    + unfold refreshEphemeralToken, bind, first_by_token, gets.
      unfold lookup in Hd. now rewrite Hd.
  - unfold transaction.
    destruct (lookup tok st) as [d|] eqn:Hd.
    + rewrite (deactivateEphemeralToken_found now tok st d Hd). simpl.
      apply (db_patch_consistent (_id d)); auto.
    + unfold deactivateEphemeralToken, bind, first_by_token, gets.
      unfold lookup in Hd. now rewrite Hd.
  - unfold transaction, cleanupExpiredTokens, bind, collect, gets.
    set (ids := List.map _id _).
    pose proof (delete_all_consistent ids st Hst) as Hc.
    pose proof (delete_all_returns ids st) as Hr.
    destruct (delete_all ids st) as [[[]|msg] st1]; simpl in *; [exact Hc|].
    discriminate Hr.
Qed.

Lemma run_consistent (ops : list (Z * Op)) st :
  consistent st -> metered ops st -> consistent (run ops st).
Proof.
  revert st. induction ops as [|[now op] ops IH]; intros st Hst Hm; [exact Hst|].
  destruct Hm as [Hfit Hm]. simpl. apply IH; [|exact Hm].
  now apply exec_consistent.
Qed.

Lemma metered_prefix (ops ops' : list (Z * Op)) st :
  metered (ops ++ ops') st -> metered ops st.
Proof.
  revert st. induction ops as [|[now op] ops IH]; intros st; simpl; [auto|].
  intros [Hfit Hm]. split; [exact Hfit | now apply IH].
Qed.

(** The proxy's way of metering keeps to the quota: one unit, added after
    the validator accepted the token in the same store. *)
Lemma validated_unit_fits_quota now tok st v :
  fst (validateEphemeralToken now tok st) = Returned v ->
  isValid v = true ->
  fits_quota (UpdateUsage tok (Some 1) None) st
  /\ fits_quota (UpdateUsage tok None (Some 1)) st.
Proof.
  unfold validateEphemeralToken, bind, first_by_token, gets, fits_quota, lookup.
  destruct (List.find _ (ephemeralTokens st)) as [d|]; [|auto].
  destruct (isActive d); simpl; [|intros [= <-]; discriminate].
  destruct (now >? expiresAt d); simpl; [intros [= <-]; discriminate|].
  destruct (sessionsUsed d >=? maxSessions d) eqn:Hs; simpl;
    [intros [= <-]; discriminate|].
  destruct (messagesUsed d >=? maxMessages d) eqn:Hm; simpl;
    [intros [= <-]; discriminate|].
  intros _ _. rewrite Z.geb_leb in Hs, Hm.
  apply Z.leb_gt in Hs, Hm. lia.
Qed.

(** C1, as the code has it. From an empty token table, along every
    sequence of token operations in which tokens are issued with bounds
    that are not negative and every [updateUsage] adds no more than the
    token has left, the counters of every stored token are within its
    bounds after each operation. *)
Theorem metered_operations_respect_quota
    (users : list string) (ops ops' : list (Z * Op)) :
  metered (ops ++ ops') (empty_store users) ->
  quota_respected (run ops (empty_store users)).
Proof.
  intros Hm. apply metered_prefix in Hm.
  apply (run_consistent ops (empty_store users) (consistent_empty users) Hm).
Qed.

End Quota.

Lemma sample_store_holds_sample_doc :
  Tokens.lookup sample_token sample_store = Some sample_doc.
Proof. reflexivity. Qed.

(** A token is issued and one session is metered against it. *)
Lemma metered_operations_respect_quota_witness :
  Tokens.metered (metered_history ++ []) (Tokens.empty_store ["user_1"])
  /\ Tokens.quota_respected (Tokens.run metered_history (Tokens.empty_store ["user_1"])).
Proof.
  assert (H : Tokens.metered (metered_history ++ []) (Tokens.empty_store ["user_1"])).
  { simpl. repeat split; try exact I; vm_compute; discriminate. }
  split; [exact H|].
  exact (metered_operations_respect_quota ["user_1"] metered_history [] H).
Defined.

(** C1 as stated fails: [updateUsage] adds whatever it is given. After six
    sessions are added to a token that allows five, [sessionsUsed] exceeds
    [maxSessions]. *)
Lemma unmetered_update_exceeds_quota :
  ~ Tokens.quota_respected
      (Tokens.run unmetered_history (Tokens.empty_store ["user_1"])).
Proof.
  unfold Tokens.quota_respected. intros H.
  apply Forall_inv in H. destruct H as [H _]. vm_compute in H. now apply H.
Qed.

(** Nor does issuing check the bounds it is given: a token issued with
    [maxSessions = -1] starts above its bound. *)
Example negative_bound_exceeds_quota_at_issue :
  ~ Tokens.quota_respected
      (Tokens.run [(1000, Tokens.Generate sample_entropy "user_1" (Some (-1)) None None)]
                  (Tokens.empty_store ["user_1"])).
Proof.
  unfold Tokens.quota_respected. intros H.
  apply Forall_inv in H. destruct H as [H _]. vm_compute in H. now apply H.
Qed.



(** The sample token deactivated at time 2000 and again at time 3000. *)
Lemma deactivate_twice_as_latest_witness :
  Tokens.lookup sample_token sample_store = Some sample_doc
  /\ let st1 := snd (Tokens.deactivateEphemeralToken 2000 sample_token sample_store) in
     Tokens.deactivateEphemeralToken 3000 sample_token st1
     = (Eff.Returned {| Tokens.success := true; Tokens.d_token := sample_token |},
        snd (Tokens.deactivateEphemeralToken 3000 sample_token sample_store))
     /\ exists d',
          Tokens.lookup sample_token
            (snd (Tokens.deactivateEphemeralToken 3000 sample_token st1)) = Some d'
          /\ Tokens.isActive d' = false
          /\ Tokens.deactivatedAt d' = Some 3000.
Proof.
  split; [reflexivity|].
  apply (deactivate_twice_as_latest 2000 3000 sample_token sample_store sample_doc).
  reflexivity.
Defined.

(** C5 as stated fails: the second call is not a no-op. Deactivating the
    sample token at time 2000 and again at time 3000 leaves
    [deactivatedAt = 3000], where the single call left 2000. *)
Lemma deactivate_again_overwrites_deactivatedAt :
  let once := snd (Tokens.deactivateEphemeralToken 2000 sample_token sample_store) in
  let twice := snd (Tokens.deactivateEphemeralToken 3000 sample_token once) in
  (Tokens.deactivatedAt <$> Tokens.lookup sample_token once) = Some (Some 2000)
  /\ (Tokens.deactivatedAt <$> Tokens.lookup sample_token twice) = Some (Some 3000)
  /\ twice <> once.
Proof.
  split; [reflexivity|]. split; [reflexivity|].
  intros H. apply (f_equal (fun st => Tokens.deactivatedAt <$> Tokens.lookup sample_token st)) in H.
  vm_compute in H. discriminate H.
Qed.

(** ** The session registry *)

Section Registry.
Import Eff Proxy.

Implicit Types (st : State) (sid : string) (now : Z) (s : GeminiSession).

(** *** The inactivity sweep *)

(** One iteration of the sweep: it returns, whatever [close()] does; it
    removes the entry it visits when that entry is idle, and nothing else;
    it calls [close()] when the idle session is active and has a
    connection. *)
Lemma cleanup_entry_spec now sid s st :
  exists evs,
    cleanup_entry now (sid, s) st
    = (Returned tt,
       {| activeSessions :=
            if timed_out now s then delete sid (activeSessions st)
            else activeSessions st;
          db := db st;
          events := evs ++ events st |})
    /\ forall c, timed_out now s = true -> geminiConnection s = Some c ->
                 isActive s = true -> CloseCalled sid c ∈ evs.
Proof.
  unfold cleanup_entry.
  destruct (timed_out now s) eqn:Hidle.
  - destruct (geminiConnection s) as [c|] eqn:Hc.
    + destruct (isActive s) eqn:Hactive.
      * destruct (close_throws c) eqn:Hthrows.
        -- exists [CloseErrorLogged sid; CloseCalled sid c; CleanupLogged sid].
           split.
           ++ unfold bind, try_catch, connection_close, emit, modify,
                sessions_delete, with_sessions, bind, throw.
              simpl. now rewrite Hthrows.
           ++ intros c' _ [= <-] _. set_solver.
        -- exists [CloseCalled sid c; CleanupLogged sid].
           split.
           ++ unfold bind, try_catch, connection_close, emit, modify,
                sessions_delete, with_sessions, bind, ret.
              simpl. now rewrite Hthrows.
           ++ intros c' _ [= <-] _. set_solver.
      * exists [CleanupLogged sid]. split; [reflexivity|]. discriminate.
    + exists [CleanupLogged sid]. split; [reflexivity|]. discriminate.
  - exists []. split; [destruct st; reflexivity | discriminate].
Qed.

(** The sweep over any list of entries. *)
Lemma cleanup_entries_spec now (l : list (string * GeminiSession)) st :
  exists st',
    cleanup_entries now l st = (Returned tt, st')
    /\ db st' = db st
    /\ (forall sid,
          activeSessions st' !! sid
          = if idle_in now l sid then None else activeSessions st !! sid)
    /\ (forall ev, ev ∈ events st -> ev ∈ events st')
    /\ (forall sid s c, (sid, s) ∈ l -> timed_out now s = true ->
          geminiConnection s = Some c -> isActive s = true ->
          CloseCalled sid c ∈ events st').
Proof.
  revert st. induction l as [|[k s0] l IH]; intros st.
  - exists st. repeat split; auto. intros sid s c Hin. inversion Hin.
  - destruct (cleanup_entry_spec now k s0 st) as (evs & Hstep & Hclose).
    set (st1 := {| activeSessions := _; db := db st; events := evs ++ events st |})
      in Hstep.
    destruct (IH st1) as (st' & Hrun & Hdb & Hmap & Hmono & Hcalls).
    exists st'. split; [|split; [|split; [|split]]].
    + change (cleanup_entries now ((k, s0) :: l) st)
        with (bind (cleanup_entry now (k, s0)) (fun _ => cleanup_entries now l) st).
      unfold bind. now rewrite Hstep.
    + now rewrite Hdb.
    + intros sid. rewrite Hmap. simpl.
      destruct (idle_in now l sid); [now rewrite orb_true_r|].
      rewrite orb_false_r. subst st1. simpl.
      destruct (String.eqb k sid) eqn:Hk; simpl.
      * apply String.eqb_eq in Hk as ->.
        destruct (timed_out now s0); [apply lookup_delete_eq | reflexivity].
      * apply String.eqb_neq in Hk.
        destruct (timed_out now s0); [now apply lookup_delete_ne | reflexivity].
    + intros ev Hev. apply Hmono. subst st1. simpl. set_solver.
    + intros sid s c Hin Hidle Hc Hactive.
      apply elem_of_cons in Hin as [[= -> ->]|Hin].
      * apply Hmono. subst st1. simpl.
        apply elem_of_app. left. now apply Hclose.
      * now apply (Hcalls sid s c).
Qed.

Lemma idle_in_map_to_list now (m : gmap string GeminiSession) sid :
  idle_in now (map_to_list m) sid
  = match m !! sid with
    | Some s => timed_out now s
    | None => false
    end.
Proof.
  unfold idle_in. destruct (m !! sid) as [s|] eqn:Hs.
  - destruct (timed_out now s) eqn:Hidle.
    + apply List.existsb_exists. exists (sid, s). split.
      * now apply list_elem_of_In, elem_of_map_to_list.
      * simpl. now rewrite String.eqb_refl.
    + apply not_true_is_false. intros H.
      apply List.existsb_exists in H as ([k s'] & Hin & Hcond).
      apply andb_true_iff in Hcond as [Hk Hidle']. simpl in *.
      apply String.eqb_eq in Hk as ->.
      apply list_elem_of_In, elem_of_map_to_list in Hin. congruence.
  - apply not_true_is_false. intros H.
    apply List.existsb_exists in H as ([k s'] & Hin & Hcond).
    apply andb_true_iff in Hcond as [Hk _]. simpl in *.
    apply String.eqb_eq in Hk as ->.
    apply list_elem_of_In, elem_of_map_to_list in Hin. congruence.
Qed.

(** C8. The sweep returns, and afterwards the registry holds exactly the
    sessions it held whose last activity is no older than the 15-minute
    timeout, each unchanged: a session is removed if and only if
    [now - lastActivity] exceeds 900000 ms. Every idle session that is
    active and has a connection had [close()] called on it. Neither fact
    depends on whether any [close()] throws. *)
Theorem sweep_removes_exactly_idle_sessions now st :
  exists st',
    cleanupInactiveSessions now st = (Returned tt, st')
    /\ (forall sid,
          activeSessions st' !! sid
          = match activeSessions st !! sid with
            | Some s => if now - lastActivity s >? 15 * 60 * 1000 then None else Some s
            | None => None
            end)
    /\ (forall sid s c,
          activeSessions st !! sid = Some s ->
          now - lastActivity s > 15 * 60 * 1000 ->
          geminiConnection s = Some c -> isActive s = true ->
          CloseCalled sid c ∈ events st')
    /\ db st' = db st.
Proof.
  unfold cleanupInactiveSessions.
  destruct (cleanup_entries_spec now (map_to_list (activeSessions st)) st)
    as (st' & Hrun & Hdb & Hmap & _ & Hcalls).
  exists st'. split; [exact Hrun|]. split; [|split; [|exact Hdb]].
  - intros sid. rewrite Hmap, idle_in_map_to_list.
    destruct (activeSessions st !! sid) as [s|]; reflexivity.
  - intros sid s c Hs Hidle Hc Hactive.
    apply (Hcalls sid s c); auto.
    + now apply elem_of_map_to_list.
    + unfold timed_out, TIMEOUT_MS. apply Z.gtb_lt. lia.
Qed.

(** *** Closing a session *)

Lemma present_nonempty (s : string) : s <> "" -> JS.present (Some s) = Some s.
Proof. destruct s; [congruence | reflexivity]. Qed.

(** Closing an identifier that is not registered changes nothing. *)
Lemma close_session_absent now sid st :
  sid <> "" ->
  activeSessions st !! sid = None ->
  geminiLiveProxy now (CloseSession (Some sid)) st
  = (Returned (respond (StatusBody "session_closed")), st).
Proof.
  intros Hsid Hs.
  unfold geminiLiveProxy, try_catch, close_session_body.
  rewrite (present_nonempty sid Hsid).
  unfold bind at 1. unfold sessions_get, gets. now rewrite Hs.
Qed.

(** Closing a registered session removes it, whatever its [close()] does. *)
Lemma close_session_present now sid st s :
  sid <> "" ->
  activeSessions st !! sid = Some s ->
  exists evs,
    geminiLiveProxy now (CloseSession (Some sid)) st
    = (Returned (respond (StatusBody "session_closed")),
       {| activeSessions := delete sid (activeSessions st);
          db := db st;
          events := evs ++ events st |}).
Proof.
  intros Hsid Hs.
  unfold geminiLiveProxy, try_catch, close_session_body.
  rewrite (present_nonempty sid Hsid).
  unfold bind at 1. unfold sessions_get, gets. rewrite Hs.
  destruct (geminiConnection s) as [c|] eqn:Hc.
  - destruct (close_throws c) eqn:Hthrows.
    + exists [CloseErrorLogged sid; CloseCalled sid c].
      unfold bind, try_catch, connection_close, emit, modify, sessions_set,
        sessions_delete, with_sessions, throw, ret. simpl. now rewrite Hthrows.
    + exists [CloseCalled sid c].
      unfold bind, try_catch, connection_close, emit, modify, sessions_set,
        sessions_delete, with_sessions, throw, ret. simpl. rewrite Hthrows. simpl.
      now rewrite delete_insert_eq.
  - exists [CloseErrorLogged sid].
    unfold bind, try_catch, connection_close, emit, modify, sessions_set,
      sessions_delete, with_sessions, throw, ret. reflexivity.
Qed.

(** C10, as the code has it. For every session identifier that is not
    empty, registered or not, [close_session] answers [session_closed];
    afterwards that identifier is not in the registry, while the other
    sessions and the token store are as they were; when the identifier was
    not registered nothing at all has changed; and closing it once more
    gives the same answer and changes nothing. *)
Theorem close_session_always_closes now now' sid st :
  sid <> "" ->
  exists st',
    geminiLiveProxy now (CloseSession (Some sid)) st
    = (Returned (respond (StatusBody "session_closed")), st')
    /\ activeSessions st' !! sid = None
    /\ (forall other, other <> sid ->
          activeSessions st' !! other = activeSessions st !! other)
    /\ db st' = db st
    /\ (activeSessions st !! sid = None -> st' = st)
    /\ geminiLiveProxy now' (CloseSession (Some sid)) st'
       = (Returned (respond (StatusBody "session_closed")), st').
Proof.
  intros Hsid.
  destruct (activeSessions st !! sid) as [s|] eqn:Hs.
  - destruct (close_session_present now sid st s Hsid Hs) as (evs & Hclose).
    eexists. split; [exact Hclose|]. cbn [activeSessions db].
    split; [apply lookup_delete_eq|].
    split; [intros other Ho; now rewrite lookup_delete_ne by congruence|].
    split; [reflexivity|]. split; [discriminate|].
    apply close_session_absent; [exact Hsid | apply lookup_delete_eq].
  - exists st. rewrite !close_session_absent by assumption.
    repeat split; auto.
Qed.

End Registry.

(** The registered session of the sample proxy, whose [close()] throws. *)
Lemma close_session_always_closes_witness :
  "gemini-1000-abc" <> ""
  /\ exists st',
       Proxy.geminiLiveProxy 5000 (Proxy.CloseSession (Some "gemini-1000-abc")) sample_proxy
       = (Eff.Returned (Proxy.respond (Proxy.StatusBody "session_closed")), st')
       /\ Proxy.activeSessions st' !! "gemini-1000-abc" = None
       /\ (forall other, other <> "gemini-1000-abc" ->
             Proxy.activeSessions st' !! other = Proxy.activeSessions sample_proxy !! other)
       /\ Proxy.db st' = Proxy.db sample_proxy
       /\ (Proxy.activeSessions sample_proxy !! "gemini-1000-abc" = None -> st' = sample_proxy)
       /\ Proxy.geminiLiveProxy 6000 (Proxy.CloseSession (Some "gemini-1000-abc")) st'
          = (Eff.Returned (Proxy.respond (Proxy.StatusBody "session_closed")), st').
Proof.
  split; [discriminate|].
  apply (close_session_always_closes 5000 6000 "gemini-1000-abc" sample_proxy).
  discriminate.
Defined.

(** C10 as stated fails for the empty identifier, which the handler takes for
    a missing one: the answer is status 400, "sessionId is required". *)
Lemma close_session_rejects_empty_identifier :
  Proxy.activeSessions sample_proxy !! "" = None
  /\ Proxy.geminiLiveProxy 5000 (Proxy.CloseSession (Some "")) sample_proxy
     = (Eff.Returned (Proxy.respond_error 400 "sessionId is required"), sample_proxy).
Proof. split; reflexivity. Qed.

(** The sweep on the sample proxy, whose only session was last active at
    time 1000 and whose connection throws on [close()]: at time 901001 the
    session is idle, [close()] is called, the failure is logged, and the
    registry is empty afterwards. *)
Example sweep_sample_proxy :
  Proxy.cleanupInactiveSessions 901001 sample_proxy
  = (Eff.Returned tt,
     {| Proxy.activeSessions := delete "gemini-1000-abc" (Proxy.activeSessions sample_proxy);
        Proxy.db := sample_store;
        Proxy.events :=
          [Proxy.CloseErrorLogged "gemini-1000-abc";
           Proxy.CloseCalled "gemini-1000-abc" sample_connection;
           Proxy.CleanupLogged "gemini-1000-abc"] |}).
Proof. reflexivity. Qed.

Example sweep_keeps_recent_session :
  Proxy.cleanupInactiveSessions 901000 sample_proxy = (Eff.Returned tt, sample_proxy).
Proof. reflexivity. Qed.

(** ** Sessions against a token's quota *)

Section SessionQuota.
Import Eff Proxy.

Implicit Types (st : State) (now : Z) (tok uid : string) (d : Tokens.TokenDoc).

Lemma find_app_fresh {A} (p : A -> bool) (l : list A) (x : A) :
  List.find p l = None -> p x = true -> List.find p (l ++ [x]) = Some x.
Proof.
  induction l as [|y l IH]; simpl; intros Hl Hx; [now rewrite Hx|].
  destruct (p y); [discriminate | auto].
Qed.

(** The record of a freshly issued token, found by its secret when the
    secret is not already in use. *)
Lemma lookup_issued e now owner maxS maxM minutes (db0 db1 : Tokens.Store) g :
  Tokens.generateEphemeralToken e now owner maxS maxM minutes db0 = (Returned g, db1) ->
  Tokens.lookup (Tokens.g_token g) db0 = None ->
  exists d,
    Tokens.lookup (Tokens.g_token g) db1 = Some d
    /\ Tokens.g_token g = Secret.generateSecureToken e now
    /\ Tokens.isActive d = true
    /\ Tokens.expiresAt d = Tokens.g_expiresAt g
    /\ Tokens.sessionsUsed d = 0
    /\ Tokens.messagesUsed d = 0
    /\ Tokens.maxSessions d = JS.or_default maxS Tokens.MAX_SESSIONS_PER_TOKEN
    /\ Tokens.maxMessages d = JS.or_default maxM Tokens.MAX_MESSAGES_PER_TOKEN.
Proof.
  unfold Tokens.generateEphemeralToken, bind, Tokens.user_by_token, gets.
  destruct (List.find _ (Tokens.users db0)); [|discriminate].
  unfold Tokens.db_insert, ret. intros [= <- <-] Hfresh. simpl in *.
  eexists. split.
  - unfold Tokens.lookup. simpl. apply find_app_fresh; [exact Hfresh|].
    simpl. apply String.eqb_refl.
  - simpl. repeat split; reflexivity.
Qed.

(** [create_session] with a token the validator accepts: the session
    counter of the token goes up by one and the session is registered. *)
Lemma create_session_accepted now (p : Provider) (c : Connection) uid tok st d :
  uid <> "" -> tok <> "" ->
  Tokens.lookup tok (db st) = Some d ->
  Tokens.isActive d = true ->
  now <= Tokens.expiresAt d ->
  Tokens.sessionsUsed d < Tokens.maxSessions d ->
  Tokens.messagesUsed d < Tokens.maxMessages d ->
  connect p = Some c ->
  exists st' d',
    geminiLiveProxy now (CreateSession p (Some uid) (Some tok)) st
    = (Returned (respond (SessionCreated (newSessionId p) "connected" MODEL)), st')
    /\ is_Some (activeSessions st' !! newSessionId p)
    /\ events st' = events st
    /\ Tokens.lookup tok (db st') = Some d'
    /\ Tokens.sessionsUsed d' = Tokens.sessionsUsed d + 1
    /\ Tokens.messagesUsed d' = Tokens.messagesUsed d
    /\ Tokens.isActive d' = true
    /\ Tokens.expiresAt d' = Tokens.expiresAt d
    /\ Tokens.maxSessions d' = Tokens.maxSessions d
    /\ Tokens.maxMessages d' = Tokens.maxMessages d.
Proof.
  intros Huid Htok Hd Hactive Hnow Hs Hm Hc.
  unfold geminiLiveProxy, try_catch, create_session_body.
  rewrite (present_nonempty uid Huid), (present_nonempty tok Htok).
  unfold bind at 1. unfold bind at 1. unfold runQuery at 1.
  rewrite (validate_accepts now tok (db st) d) by assumption. cbn [fst].
  cbn [Tokens.isValid Tokens.valid negb].
  unfold bind at 1. unfold runMutation, transaction.
  rewrite (updateTokenUsage_found now tok (Some 1) None (db st) d Hd).
  cbn [snd fst]. unfold ret at 1. rewrite Hc.
  unfold bind, sessions_set, modify, with_sessions, ret. cbn [snd fst].
  eexists _, _. split; [reflexivity|]. cbn [activeSessions db events].
  split; [rewrite lookup_insert_eq; eauto|].
  split; [reflexivity|].
  split; [apply lookup_patched; [reflexivity | exact Hd]|].
  simpl. repeat split; first [lia | assumption].
Qed.

(** [create_session] with a token whose sessions are used up: the answer
    carries the validator's reason, and nothing is written. *)
Lemma create_session_quota_refused now (p : Provider) uid tok st d :
  uid <> "" -> tok <> "" ->
  Tokens.lookup tok (db st) = Some d ->
  Tokens.isActive d = true ->
  now <= Tokens.expiresAt d ->
  Tokens.maxSessions d <= Tokens.sessionsUsed d ->
  geminiLiveProxy now (CreateSession p (Some uid) (Some tok)) st
  = (Returned (respond_error 403 "Token validation failed: Session limit exceeded"), st).
Proof.
  intros Huid Htok Hd Hactive Hnow Hs.
  unfold geminiLiveProxy, try_catch, create_session_body.
  rewrite (present_nonempty uid Huid), (present_nonempty tok Htok).
  unfold bind at 1. unfold bind at 1. unfold runQuery at 1.
  rewrite (validate_refuses_sessions now tok (db st) d) by assumption.
  reflexivity.
Qed.

Lemma secret_nonempty e now : Secret.generateSecureToken e now <> "".
Proof. discriminate. Qed.

(** C4. A token is issued with [maxSessions = 3] (and otherwise the
    defaults) under a secret not already in use. Then three successive
    [create_session] requests presenting it, made before it expires and
    each granted its connection by the provider, are answered
    [connected], register their session and raise [sessionsUsed] to 1, 2
    and 3; a fourth request, whatever the provider would do, is answered
    with status 403 and the validator's reason [SessionQuotaExceeded]
    ("Session limit exceeded"), and leaves registry and store as they
    were. *)
Theorem three_sessions_then_quota_exceeded
    (e : Secret.Entropy) (owner uid : string) (t0 t1 t2 t3 t4 : Z)
    (p1 p2 p3 p4 : Provider) (c1 c2 c3 : Connection)
    (st0 : State) (g : Tokens.Generated) (db1 : Tokens.Store) :
  Tokens.generateEphemeralToken e t0 owner (Some 3) None None (db st0)
    = (Returned g, db1) ->
  Tokens.lookup (Tokens.g_token g) (db st0) = None ->
  uid <> "" ->
  connect p1 = Some c1 -> connect p2 = Some c2 -> connect p3 = Some c3 ->
  t1 <= Tokens.g_expiresAt g -> t2 <= Tokens.g_expiresAt g ->
  t3 <= Tokens.g_expiresAt g -> t4 <= Tokens.g_expiresAt g ->
  let tok := Tokens.g_token g in
  let request p := CreateSession p (Some uid) (Some tok) in
  let connected p := respond (SessionCreated (newSessionId p) "connected" MODEL) in
  let used st := Tokens.sessionsUsed <$> Tokens.lookup tok (db st) in
  let st1 := {| activeSessions := activeSessions st0; db := db1; events := events st0 |} in
  exists s1 s2 s3,
    geminiLiveProxy t1 (request p1) st1 = (Returned (connected p1), s1)
    /\ is_Some (activeSessions s1 !! newSessionId p1) /\ used s1 = Some 1
    /\ geminiLiveProxy t2 (request p2) s1 = (Returned (connected p2), s2)
    /\ is_Some (activeSessions s2 !! newSessionId p2) /\ used s2 = Some 2
    /\ geminiLiveProxy t3 (request p3) s2 = (Returned (connected p3), s3)
    /\ is_Some (activeSessions s3 !! newSessionId p3) /\ used s3 = Some 3
    /\ geminiLiveProxy t4 (request p4) s3
       = (Returned
            (respond_error 403
             ("Token validation failed: "
              +:+ Tokens.message_of Tokens.SessionQuotaExceeded)),
          s3).
Proof.
  intros Hissue Hfresh Huid Hc1 Hc2 Hc3 Ht1 Ht2 Ht3 Ht4 tok request connected used st1.
  destruct (lookup_issued _ _ _ _ _ _ _ _ _ Hissue Hfresh)
    as (d0 & Hd0 & Hsecret & Ha0 & He0 & Hs0 & Hm0 & HS0 & HM0).
  assert (Htok : tok <> "").
  { subst tok. rewrite Hsecret. apply secret_nonempty. }
  change (JS.or_default (Some 3) Tokens.MAX_SESSIONS_PER_TOKEN) with 3 in HS0.
  change (JS.or_default None Tokens.MAX_MESSAGES_PER_TOKEN) with 1000 in HM0.
  destruct (create_session_accepted t1 p1 c1 uid tok st1 d0)
    as (s1 & d1 & Hr1 & Hreg1 & _ & Hd1 & Hs1 & Hm1 & Ha1 & He1 & HS1 & HM1);
    auto; try lia.
  destruct (create_session_accepted t2 p2 c2 uid tok s1 d1)
    as (s2 & d2 & Hr2 & Hreg2 & _ & Hd2 & Hs2 & Hm2 & Ha2 & He2 & HS2 & HM2);
    auto; try lia.
  destruct (create_session_accepted t3 p3 c3 uid tok s2 d2)
    as (s3 & d3 & Hr3 & Hreg3 & _ & Hd3 & Hs3 & Hm3 & Ha3 & He3 & HS3 & HM3);
    auto; try lia.
  exists s1, s2, s3. subst used request connected. cbn beta.
  rewrite Hd1, Hd2, Hd3. cbn [fmap option_fmap option_map].
  repeat split; auto; try (f_equal; lia).
  apply (create_session_quota_refused t4 p4 uid tok s3 d3); auto; lia.
Qed.

End SessionQuota.

(** Scenario A on concrete data: requests at times 2000 to 5000 against a
    token issued at time 1000. *)
Lemma three_sessions_then_quota_exceeded_witness :
  let request p := Proxy.CreateSession p (Some "user_1") (Some sample_token) in
  let connected p :=
    Proxy.respond (Proxy.SessionCreated (Proxy.newSessionId p) "connected" Proxy.MODEL) in
  let used st := Tokens.sessionsUsed <$> Tokens.lookup sample_token (Proxy.db st) in
  let p1 := scenario_provider 1 "gemini-2000-a" in
  let p2 := scenario_provider 2 "gemini-3000-b" in
  let p3 := scenario_provider 3 "gemini-4000-c" in
  let p4 := scenario_provider 4 "gemini-5000-d" in
  let st1 := {| Proxy.activeSessions := ∅; Proxy.db := scenario_db; Proxy.events := [] |} in
  Tokens.generateEphemeralToken sample_entropy 1000 "user_1" (Some 3) None None
    (Proxy.db fresh_proxy) = (Eff.Returned scenario_grant, scenario_db)
  /\ Tokens.lookup sample_token (Proxy.db fresh_proxy) = None
  /\ "user_1" <> ""
  /\ 2000 <= 3601000 /\ 3000 <= 3601000 /\ 4000 <= 3601000 /\ 5000 <= 3601000
  /\ exists s1 s2 s3,
       Proxy.geminiLiveProxy 2000 (request p1) st1 = (Eff.Returned (connected p1), s1)
       /\ is_Some (Proxy.activeSessions s1 !! "gemini-2000-a") /\ used s1 = Some 1
       /\ Proxy.geminiLiveProxy 3000 (request p2) s1 = (Eff.Returned (connected p2), s2)
       /\ is_Some (Proxy.activeSessions s2 !! "gemini-3000-b") /\ used s2 = Some 2
       /\ Proxy.geminiLiveProxy 4000 (request p3) s2 = (Eff.Returned (connected p3), s3)
       /\ is_Some (Proxy.activeSessions s3 !! "gemini-4000-c") /\ used s3 = Some 3
       /\ Proxy.geminiLiveProxy 5000 (request p4) s3
          = (Eff.Returned
               (Proxy.respond_error 403
                ("Token validation failed: "
                 +:+ Tokens.message_of Tokens.SessionQuotaExceeded)),
             s3).
Proof.
  cbv zeta.
  split; [reflexivity|]. split; [reflexivity|]. split; [discriminate|].
  split; [discriminate|]. split; [discriminate|]. split; [discriminate|].
  split; [discriminate|].
  apply (three_sessions_then_quota_exceeded sample_entropy "user_1" "user_1"
           1000 2000 3000 4000 5000
           (scenario_provider 1 "gemini-2000-a") (scenario_provider 2 "gemini-3000-b")
           (scenario_provider 3 "gemini-4000-c") (scenario_provider 4 "gemini-5000-d")
           {| Proxy.handle := 1; Proxy.close_throws := false |}
           {| Proxy.handle := 2; Proxy.close_throws := false |}
           {| Proxy.handle := 3; Proxy.close_throws := false |}
           fresh_proxy scenario_grant scenario_db);
    try reflexivity; discriminate.
Defined.

(** ** The browser-side cache *)

Section Cache.
Import Eff TokenService.

Variable JSON_parse : string -> option TokenInfo.

Implicit Types (b : Browser) (now : Z) (raw : string).

Lemma clearToken_clears b :
  window_defined b = true -> storage_blocked b = false ->
  clearToken b
  = (Returned tt,
     with_storage b (delete TOKEN_INFO_KEY (delete TOKEN_KEY (localStorage b)))).
Proof.
  intros Hw Hs. unfold clearToken, bind, gets, try_catch, removeItem.
  rewrite Hw. simpl. rewrite Hs. simpl. now rewrite Hs.
Qed.

(** [clearToken] swallows what the storage throws. *)
Lemma clearToken_never_throws b : exists b', clearToken b = (Returned tt, b').
Proof.
  unfold clearToken, bind, gets, try_catch, removeItem, warn, modify.
  destruct (window_defined b); simpl; [|eauto].
  destruct (storage_blocked b) eqn:Hs; simpl; [eauto|].
  rewrite Hs. eauto.
Qed.

(** Whatever the cache holds and whatever the storage does,
    [getTokenInfo] returns. *)
Lemma getTokenInfo_never_throws now b :
  exists r b', getTokenInfo JSON_parse now b = (Returned r, b').
Proof.
  unfold getTokenInfo, bind, gets, try_catch.
  destruct (window_defined b) eqn:Hw; simpl; [|eauto].
  unfold getItem. destruct (storage_blocked b) eqn:Hs.
  - match goal with |- context [clearToken ?x] =>
      destruct (clearToken_never_throws x) as (b' & ->) end.
    eauto.
  - destruct (JS.present (localStorage b !! TOKEN_INFO_KEY)) as [text|]; [|eauto].
    unfold parse. destruct (JSON_parse text) as [info|].
    + unfold ret at 1. destruct (now >? expiresAt info).
      * destruct (clearToken_never_throws b) as (b' & ->). eauto.
      * eauto.
    + unfold throw, warn, modify. simpl.
      match goal with |- context [clearToken ?x] =>
        destruct (clearToken_never_throws x) as (b' & ->) end.
      eauto.
Qed.

Lemma isTokenValid_never_throws now now' b :
  exists r b', isTokenValid JSON_parse now now' b = (Returned r, b').
Proof.
  unfold isTokenValid, bind.
  destruct (getTokenInfo_never_throws now b) as (r & b' & ->). eauto.
Qed.

(** C9, as the code has it. The cache holds, as its record, a text that is
    not empty and that [JSON.parse] rejects, or that parses to a record
    whose [expiresAt] is past. Then [getTokenInfo] returns absent and
    removes both cached entries, and [isTokenValid] returns false; neither
    throws. *)
Theorem unreadable_or_expired_record_is_cleared now now' b raw :
  window_defined b = true -> storage_blocked b = false ->
  localStorage b !! TOKEN_INFO_KEY = Some raw ->
  raw <> "" ->
  (JSON_parse raw = None
   \/ exists info, JSON_parse raw = Some info /\ expiresAt info < now) ->
  exists b',
    getTokenInfo JSON_parse now b = (Returned None, b')
    /\ localStorage b' !! TOKEN_INFO_KEY = None
    /\ localStorage b' !! TOKEN_KEY = None
    /\ isTokenValid JSON_parse now now' b = (Returned false, b').
Proof.
  intros Hw Hs Hraw Hne Hbad.
  assert (Hget : exists b',
    getTokenInfo JSON_parse now b = (Returned None, b')
    /\ localStorage b' = delete TOKEN_INFO_KEY (delete TOKEN_KEY (localStorage b))).
  { unfold getTokenInfo, bind, gets, try_catch, getItem.
    rewrite Hw. simpl. rewrite Hs, Hraw, (present_nonempty raw Hne).
    unfold parse. destruct Hbad as [Hbad | (info & Hinfo & Hpast)].
    - rewrite Hbad. unfold throw, warn, modify. simpl.
      rewrite clearToken_clears by assumption. simpl. eauto.
    - rewrite Hinfo. unfold ret at 1.
      replace (now >? expiresAt info) with true by (symmetry; apply Z.gtb_lt; lia).
      rewrite clearToken_clears by assumption. simpl. eauto. }
  destruct Hget as (b' & Hget & Hstorage).
  exists b'. split; [exact Hget|].
  split; [rewrite Hstorage; apply lookup_delete_eq|].
  split; [rewrite Hstorage, lookup_delete_ne by discriminate; apply lookup_delete_eq|].
  unfold isTokenValid, bind. now rewrite Hget.
Qed.

End Cache.

(** A cache whose record was cut off in the middle. *)
Lemma unreadable_or_expired_record_is_cleared_witness :
  let b := cache_holding truncated_record in
  TokenService.window_defined b = true
  /\ TokenService.storage_blocked b = false
  /\ TokenService.localStorage b !! TokenService.TOKEN_INFO_KEY = Some truncated_record
  /\ truncated_record <> ""
  /\ (rejecting_parse truncated_record = None
      \/ exists info, rejecting_parse truncated_record = Some info
                      /\ TokenService.expiresAt info < 5000)
  /\ exists b',
       TokenService.getTokenInfo rejecting_parse 5000 b = (Eff.Returned None, b')
       /\ TokenService.localStorage b' !! TokenService.TOKEN_INFO_KEY = None
       /\ TokenService.localStorage b' !! TokenService.TOKEN_KEY = None
       /\ TokenService.isTokenValid rejecting_parse 5000 5001 b = (Eff.Returned false, b').
Proof.
  cbv zeta.
  split; [reflexivity|]. split; [reflexivity|]. split; [reflexivity|].
  split; [discriminate|]. split; [left; reflexivity|].
  apply (unreadable_or_expired_record_is_cleared rejecting_parse 5000 5001
           (cache_holding truncated_record) truncated_record);
    [reflexivity | reflexivity | reflexivity | discriminate | left; reflexivity].
Defined.

(** C9 as stated fails when the record is the empty text, which no JSON
    parser reads: [getTokenInfo] takes it for a missing record, returns absent
    and clears nothing, so the cached token stays. *)
Lemma empty_record_is_not_cleared :
  let b := cache_holding "" in
  TokenService.localStorage b !! TokenService.TOKEN_INFO_KEY = Some ""
  /\ rejecting_parse "" = None
  /\ TokenService.getTokenInfo rejecting_parse 5000 b = (Eff.Returned None, b)
  /\ TokenService.localStorage b !! TokenService.TOKEN_KEY = Some sample_token
  /\ TokenService.getToken b = (Eff.Returned (Some sample_token), b).
Proof. cbv zeta. repeat split; reflexivity. Qed.

(** * Further properties of the code *)

(** ** Issuing, revoking and cleaning up tokens *)

Section Lifecycle.
Import Eff Tokens.

Implicit Types (st : Store) (d : TokenDoc) (tok : string) (now : Z).

(** A freshly issued token is accepted by the validator until it expires:
    the answer carries the owner, counters at zero and the bounds and expiry
    that [generate] returned. *)
Theorem issued_token_is_valid (e : Secret.Entropy) t0 now (owner : string)
    (maxS maxM minutes : option Z) (st st1 : Store) (g : Generated) :
  generateEphemeralToken e t0 owner maxS maxM minutes st = (Returned g, st1) ->
  lookup (g_token g) st = None ->
  0 < g_maxSessions g -> 0 < g_maxMessages g ->
  now <= g_expiresAt g ->
  validateEphemeralToken now (g_token g) st1
  = (Returned
       {| isValid := true; error := None;
          v_userId := Some owner;
          v_sessionsUsed := Some 0; v_messagesUsed := Some 0;
          v_maxSessions := Some (g_maxSessions g);
          v_maxMessages := Some (g_maxMessages g);
          v_expiresAt := Some (g_expiresAt g) |},
     st1).
Proof.
  unfold generateEphemeralToken, bind, user_by_token, gets.
  destruct (List.find _ (users st)); [|discriminate].
  unfold db_insert, ret. intros [= <- <-] Hfresh HS HM Hnow. simpl in *.
  match goal with |- validateEphemeralToken _ ?t ?s = _ =>
    assert (Hd : exists d, lookup t s = Some d
                 /\ d = List.last (ephemeralTokens s) d) end.
  { eexists. split.
    - unfold lookup. simpl. apply find_app_fresh; [exact Hfresh|].
      simpl. apply String.eqb_refl.
    - simpl. now rewrite List.last_last. }
  destruct Hd as (d & Hd & Hlast). simpl in Hlast. rewrite List.last_last in Hlast.
  rewrite (validate_accepts now _ _ d Hd); subst d; simpl; auto; lia.
Qed.

(** An option given as 0 counts as omitted: [generate] with
    [maxSessions], [maxMessages] or [expirationMinutes] equal to 0 does what
    it does without them. So no token is ever issued with a bound of 0, and
    a request for 0 minutes gets the default lifetime of 60 minutes. *)
Theorem zero_options_are_defaults (e : Secret.Entropy) now (owner : string) st :
  forall maxS maxM minutes,
    generateEphemeralToken e now owner
      (match maxS with Some 0 => None | _ => maxS end)
      (match maxM with Some 0 => None | _ => maxM end)
      (match minutes with Some 0 => None | _ => minutes end) st
    = generateEphemeralToken e now owner maxS maxM minutes st
    /\ forall g st',
         generateEphemeralToken e now owner maxS maxM minutes st = (Returned g, st') ->
         g_maxSessions g <> 0 /\ g_maxMessages g <> 0
         /\ (maxS = Some 0 -> g_maxSessions g = 5)
         /\ (maxM = Some 0 -> g_maxMessages g = 1000)
         /\ (minutes = Some 0 -> g_expiresAt g = now + 60 * 60 * 1000).
Proof.
  intros maxS maxM minutes. split.
  - destruct maxS as [[| |]|], maxM as [[| |]|], minutes as [[| |]|]; reflexivity.
  - unfold generateEphemeralToken, bind, user_by_token, gets.
    destruct (List.find _ (users st)); [|discriminate].
    unfold db_insert, ret. intros g st' [= <- <-]. simpl.
    unfold JS.or_default, MAX_SESSIONS_PER_TOKEN, MAX_MESSAGES_PER_TOKEN,
      TOKEN_EXPIRATION_MINUTES.
    repeat split.
    + destruct maxS as [n|]; [destruct (n =? 0) eqn:E|]; lia.
    + destruct maxM as [n|]; [destruct (n =? 0) eqn:E|]; lia.
    + now intros ->.
    + now intros ->.
    + now intros ->.
Qed.

(** Once deactivated, a token is refused whatever else is true of it: the
    validator answers "Token is deactivated" at every time, and [refresh]
    throws "Cannot refresh inactive token" without writing. *)
Theorem deactivated_token_is_refused t tok st d :
  lookup tok st = Some d ->
  let st1 := snd (deactivateEphemeralToken t tok st) in
  forall now minutes,
    validateEphemeralToken now tok st1 = (Returned (invalid Deactivated), st1)
    /\ error (invalid Deactivated) = Some "Token is deactivated"
    /\ refreshEphemeralToken now tok minutes st1
       = (Thrown "Cannot refresh inactive token", st1).
Proof.
  intros Hd st1 now minutes.
  assert (H1 : lookup tok st1 = Some (patch_deactivated t d)).
  { subst st1. rewrite (deactivateEphemeralToken_found t tok st d Hd).
    now apply lookup_patched. }
  unfold lookup in H1.
  unfold validateEphemeralToken, refreshEphemeralToken, bind, first_by_token, gets.
  rewrite H1. repeat split; reflexivity.
Qed.


(** *** Ids stay distinct along every sequence of operations *)

Lemma db_patch_well_formed id (f : TokenDoc -> TokenDoc) st :
  (forall x, _id (f x) = _id x) ->
  well_formed st -> well_formed (snd (db_patch id f st)).
Proof.
  intros Hid [Hnd Hlt]. unfold db_patch, modify, well_formed in *. simpl.
  set (g := fun x => if Nat.eqb (_id x) id then f x else x).
  assert (Hg : forall x, _id (g x) = _id x).
  { intros x. unfold g. destruct (Nat.eqb (_id x) id); auto. }
  split.
  - rewrite List.map_map. erewrite List.map_ext; [exact Hnd|]. intros x. apply Hg.
  - rewrite !List.Forall_forall in *. intros y Hy.
    apply List.in_map_iff in Hy as (x & <- & Hx). rewrite Hg. now apply Hlt.
Qed.

Lemma filter_well_formed (p : TokenDoc -> bool) st :
  well_formed st -> well_formed (with_tokens st (List.filter p (ephemeralTokens st))).
Proof.
  intros [Hnd Hlt]. unfold well_formed in *. simpl. split.
  - now apply NoDup_map_filter.
  - rewrite !List.Forall_forall in *. intros y Hy.
    apply List.filter_In in Hy as [Hy _]. auto.
Qed.

Lemma filter_listed (id : nat) (ids : list nat) (docs : list TokenDoc) :
  List.filter (fun d => negb (List.existsb (Nat.eqb (_id d)) ids))
    (List.filter (fun d => negb (Nat.eqb (_id d) id)) docs)
  = List.filter (fun d => negb (List.existsb (Nat.eqb (_id d)) (id :: ids))) docs.
Proof.
  induction docs as [|x docs IH]; simpl; [reflexivity|].
  destruct (Nat.eqb (_id x) id); simpl; [exact IH|].
  destruct (List.existsb (Nat.eqb (_id x)) ids) eqn:E; simpl; rewrite ?E; simpl;
    [exact IH | now rewrite IH].
Qed.

Lemma filter_all {A} (l : list A) : List.filter (fun _ => true) l = l.
Proof. induction l as [|x l IH]; simpl; congruence. Qed.

(** What [delete_all] leaves: the documents whose id is not listed. *)
Lemma delete_all_filters (ids : list nat) st :
  delete_all ids st
  = (Returned tt,
     with_tokens st
       (List.filter (fun d => negb (List.existsb (Nat.eqb (_id d)) ids))
                    (ephemeralTokens st))).
Proof.
  revert st. induction ids as [|id ids IH]; intros st.
  - simpl. unfold ret, with_tokens. rewrite filter_all. now destruct st.
  - change (delete_all (id :: ids) st)
      with (bind (db_delete id) (fun _ => delete_all ids) st).
    unfold bind, db_delete, modify. rewrite IH. unfold with_tokens. cbn [ephemeralTokens users nextId].
    now rewrite filter_listed.
Qed.

Lemma listed_iff_stale now (docs : list TokenDoc) d :
  NoDup (List.map _id docs) -> In d docs ->
  List.existsb (Nat.eqb (_id d)) (List.map _id (List.filter (stale now) docs))
  = stale now d.
Proof.
  intros Hnd Hd. destruct (stale now d) eqn:Hs.
  - apply List.existsb_exists. exists (_id d). split; [|apply Nat.eqb_refl].
    apply List.in_map, List.filter_In. auto.
  - apply not_true_is_false. intros H.
    apply List.existsb_exists in H as (id & Hin & Heq).
    apply Nat.eqb_eq in Heq. subst id.
    apply List.in_map_iff in Hin as (x & Hid & Hx).
    apply List.filter_In in Hx as [Hx Hsx].
    assert (x = d) by (eapply same_id_same_doc; eauto). subst x. congruence.
Qed.

Lemma cleanupExpiredTokens_filters now st :
  well_formed st ->
  cleanupExpiredTokens now st
  = (Returned {| cleaned := List.length (List.filter (stale now) (ephemeralTokens st));
                 timestamp := now |},
     with_tokens st (List.filter (fun d => negb (stale now d)) (ephemeralTokens st))).
Proof.
  intros [Hnd _]. unfold cleanupExpiredTokens, bind, collect, gets.
  rewrite delete_all_filters. unfold ret.
  change (fun d => (expiresAt d <? now) || Bool.eqb (isActive d) false) with (stale now).
  f_equal. unfold with_tokens. f_equal.
  apply List.filter_ext_in. intros d Hd. now rewrite listed_iff_stale.
Qed.


Lemma not_stale_iff now d :
  negb (stale now d) = true <-> isActive d = true /\ now <= expiresAt d.
Proof.
  unfold stale. destruct (isActive d); simpl.
  - rewrite orb_false_r, negb_true_iff, Z.ltb_ge. tauto.
  - rewrite orb_true_r. simpl. split; [discriminate | intros [? _]; discriminate].
Qed.

(** [cleanupExpiredTokens] deletes exactly the records that are inactive or
    past their expiry: what remains are the active, unexpired records of
    before, and the count it returns is the number of records deleted. *)
Theorem cleanup_keeps_exactly_live_tokens now st :
  well_formed st ->
  exists c st',
    cleanupExpiredTokens now st = (Returned c, st')
    /\ (forall d, In d (ephemeralTokens st')
                  <-> In d (ephemeralTokens st)
                      /\ isActive d = true /\ now <= expiresAt d)
    /\ (cleaned c + List.length (ephemeralTokens st')
        = List.length (ephemeralTokens st))%nat
    /\ timestamp c = now
    /\ users st' = users st.
Proof.
  intros Hwf. eexists _, _. split; [now apply cleanupExpiredTokens_filters|].
  cbn [ephemeralTokens with_tokens cleaned timestamp users].
  split; [|split; [apply List.filter_length | split; reflexivity]].
  intros d. rewrite List.filter_In, not_stale_iff. tauto.
Qed.

Lemma filter_none {A} (p : A -> bool) (l : list A) :
  List.filter p (List.filter (fun x => negb (p x)) l) = [].
Proof.
  induction l as [|x l IH]; simpl; [reflexivity|].
  destruct (p x) eqn:E; simpl; [exact IH | now rewrite E].
Qed.

Lemma filter_twice {A} (p : A -> bool) (l : list A) :
  List.filter p (List.filter p l) = List.filter p l.
Proof.
  induction l as [|x l IH]; simpl; [reflexivity|].
  destruct (p x) eqn:E; simpl; [rewrite E; now rewrite IH | exact IH].
Qed.

(** Cleaning up twice at the same time is cleaning up once: the second run
    deletes nothing and reports 0. *)
Theorem cleanup_again_deletes_nothing now st :
  well_formed st ->
  let st1 := snd (cleanupExpiredTokens now st) in
  cleanupExpiredTokens now st1 = (Returned {| cleaned := 0; timestamp := now |}, st1).
Proof.
  intros Hwf st1. subst st1.
  rewrite (cleanupExpiredTokens_filters now st Hwf). cbn [snd].
  rewrite cleanupExpiredTokens_filters by now apply filter_well_formed.
  unfold with_tokens. cbn [ephemeralTokens users nextId].
  now rewrite filter_none, (filter_twice (fun d => negb (stale now d))).
Qed.

Lemma find_filter_kept {A} (p q : A -> bool) (l : list A) (x : A) :
  List.find p l = Some x -> q x = true -> List.find p (List.filter q l) = Some x.
Proof.
  induction l as [|y l IH]; simpl; [discriminate|].
  destruct (p y) eqn:Hp.
  - intros [= ->] Hq. rewrite Hq. simpl. now rewrite Hp.
  - intros Hx Hq. destruct (q y); simpl; [rewrite Hp|]; auto.
Qed.

(** A token the validator accepts is not touched by a cleanup made at the
    same time: the validator gives the same answer afterwards. *)
Theorem cleanup_keeps_valid_tokens now tok st v :
  well_formed st ->
  fst (validateEphemeralToken now tok st) = Returned v ->
  isValid v = true ->
  let st1 := snd (cleanupExpiredTokens now st) in
  validateEphemeralToken now tok st1 = (Returned v, st1).
Proof.
  intros Hwf Hv Hvalid st1. subst st1.
  rewrite (cleanupExpiredTokens_filters now st Hwf). cbn [snd].
  revert Hv. unfold validateEphemeralToken, bind, first_by_token, gets. simpl.
  destruct (List.find _ (ephemeralTokens st)) as [d|] eqn:Hd;
    [|intros [= <-]; discriminate].
  destruct (isActive d) eqn:Ha; simpl; [|intros [= <-]; discriminate].
  destruct (now >? expiresAt d) eqn:He; simpl; [intros [= <-]; discriminate|].
  intros Hv.
  rewrite (find_filter_kept _ (fun d => negb (stale now d)) _ d Hd).
  - rewrite Ha, He. simpl.
    destruct (sessionsUsed d >=? maxSessions d); simpl in *;
      [injection Hv as <-; discriminate|].
    destruct (messagesUsed d >=? maxMessages d); simpl in *;
      [injection Hv as <-; discriminate|].
    injection Hv as <-. reflexivity.
  - apply not_stale_iff. split; [exact Ha|]. rewrite Z.gtb_ltb in He.
    now apply Z.ltb_ge.
Qed.

(** *** [isActive] only ever goes from true to false *)

(** No record with id [id] is active, and [id] has been handed out. *)
Lemma db_patch_keeps_inactive id0 id (f : TokenDoc -> TokenDoc) st :
  (forall x, _id (f x) = _id x) ->
  (forall x, isActive x = false -> isActive (f x) = false) ->
  (forall d, In d (ephemeralTokens st) -> _id d = id0 -> isActive d = false) ->
  forall d, In d (ephemeralTokens (snd (db_patch id f st))) -> _id d = id0 ->
            isActive d = false.
Proof.
  intros Hid Hf H d Hd Hd0. unfold db_patch, modify in Hd. simpl in Hd.
  apply List.in_map_iff in Hd as (x & <- & Hx).
  destruct (Nat.eqb (_id x) id).
  - rewrite Hid in Hd0. apply Hf. now apply H.
  - now apply H.
Qed.

Lemma exec_keeps_inactive id0 now op st :
  (id0 < nextId st)%nat ->
  (forall d, In d (ephemeralTokens st) -> _id d = id0 -> isActive d = false) ->
  (id0 < nextId (exec now op st))%nat
  /\ forall d, In d (ephemeralTokens (exec now op st)) -> _id d = id0 ->
               isActive d = false.
Proof.
  intros Hlt H. destruct op as [e uid maxS maxM minutes | tok
    | tok incS incM | tok minutes | tok | ]; simpl.
  - unfold transaction, generateEphemeralToken, bind, user_by_token, gets.
    destruct (List.find _ (users st)); [|auto].
    unfold db_insert, ret. simpl. split; [lia|].
    intros d Hd Hid. apply List.in_app_iff in Hd as [Hd|[<-|[]]]; [auto|].
    simpl in Hid. lia.
  - now rewrite validateEphemeralToken_reads_only.
  - unfold transaction.
    destruct (lookup tok st) as [d0|] eqn:Hd0.
    + rewrite (updateTokenUsage_found now tok incS incM st d0 Hd0). simpl.
      split; [exact Hlt|]. apply db_patch_keeps_inactive; auto.
    + now rewrite (updateTokenUsage_missing now tok incS incM st Hd0).
  - unfold transaction.
    destruct (lookup tok st) as [d0|] eqn:Hd0.
    + destruct (isActive d0) eqn:Hactive.
      * rewrite (refreshEphemeralToken_found now tok minutes st d0 Hd0 Hactive).
        simpl. split; [exact Hlt|]. apply db_patch_keeps_inactive; auto.
      * unfold refreshEphemeralToken, bind, first_by_token, gets.
        unfold lookup in Hd0. rewrite Hd0, Hactive. auto.
    + unfold refreshEphemeralToken, bind, first_by_token, gets.
      unfold lookup in Hd0. rewrite Hd0. auto.
  - unfold transaction.
    destruct (lookup tok st) as [d0|] eqn:Hd0.
    + rewrite (deactivateEphemeralToken_found now tok st d0 Hd0). simpl.
      split; [exact Hlt|]. apply db_patch_keeps_inactive; auto.
    + unfold deactivateEphemeralToken, bind, first_by_token, gets.
      unfold lookup in Hd0. rewrite Hd0. auto.
  - unfold transaction, cleanupExpiredTokens, bind, collect, gets.
    rewrite delete_all_filters. unfold ret. simpl. split; [exact Hlt|].
    intros d Hd. apply List.filter_In in Hd as [Hd _]. auto.
Qed.

(** Along every sequence of token operations, a record that is inactive
    stays inactive for as long as it exists: no operation sets [isActive]
    back to true, and no later record takes its id. *)
Theorem inactive_stays_inactive (ops : list (Z * Op)) st d :
  well_formed st ->
  In d (ephemeralTokens st) ->
  isActive d = false ->
  forall d', In d' (ephemeralTokens (run ops st)) -> _id d' = _id d ->
             isActive d' = false.
Proof.
  intros [Hnd Hlt] Hd Hinactive.
  assert (H0 : (_id d < nextId st)%nat
               /\ forall x, In x (ephemeralTokens st) -> _id x = _id d ->
                            isActive x = false).
  { split.
    - rewrite List.Forall_forall in Hlt. now apply Hlt.
    - intros x Hx Hid. assert (x = d) by (eapply same_id_same_doc; eauto).
      now subst x. }
  clear Hnd Hlt Hd Hinactive. revert st H0.
  induction ops as [|[now op] ops IH]; intros st [Hlt H]; [exact H|].
  simpl. apply IH. now apply exec_keeps_inactive.
Qed.

End Lifecycle.

(** ** Listing an owner's tokens *)

Section Listing.
Import Eff Tokens Admin.

Lemma substring_length_le (n : nat) (s : string) :
  (String.length (String.substring 0 n s) <= n)%nat.
Proof.
  revert s. induction n as [|n IH]; intros [|c s]; simpl; try lia.
  specialize (IH s). lia.
Qed.

Lemma append_length (a b : string) :
  String.length (a +:+ b) = (String.length a + String.length b)%nat.
Proof.
  induction a as [|c a IH]; [reflexivity|].
  rewrite append_cons. simpl. now rewrite IH.
Qed.

Lemma fill_length_ge (pick : nat -> Z) (n i : nat) (result : string) :
  (String.length result + n <= String.length (Secret.fill pick i n result))%nat.
Proof.
  revert i result. induction n as [|n IH]; intros i result; simpl; [lia|].
  specialize (IH (S i) (JS.append_char_at result Secret.chars (pick i))).
  assert (String.length result + 1
          <= String.length (JS.append_char_at result Secret.chars (pick i)))%nat.
  { unfold JS.append_char_at.
    destruct (if 0 <=? pick i then _ else _); rewrite append_length; simpl; lia. }
  lia.
Qed.

Lemma generated_secret_length (e : Secret.Entropy) (now : Z) :
  (37 <= String.length (Secret.generateSecureToken e now))%nat.
Proof.
  unfold Secret.generateSecureToken.
  pose proof (fill_length_ge (Secret.pick_of e) 32 0 "") as H.
  rewrite !append_length. simpl in *. lia.
Qed.

(** [getUserTokens] reads only; it returns one summary for each record of
    that owner; and what a summary shows of the secret is at most 15
    characters long, so it is never a secret that [generateSecureToken]
    produced. *)
Theorem listing_hides_secrets (owner : string) (st : Store) :
  exists summaries,
    getUserTokens owner st = (Returned summaries, st)
    /\ List.length summaries
       = List.length (List.filter (fun d => String.eqb (userId d) owner)
                                  (ephemeralTokens st))
    /\ forall s, In s summaries ->
         (String.length (s_token s) <= 15)%nat
         /\ (exists d, In d (ephemeralTokens st) /\ userId d = owner
                       /\ s_token s = String.substring 0 12 (token d) +:+ "...")
         /\ forall e now, s_token s <> Secret.generateSecureToken e now.
Proof.
  eexists. split; [reflexivity|]. split; [apply List.length_map|].
  intros s Hs. apply List.in_map_iff in Hs as (d & <- & Hd).
  apply List.filter_In in Hd as [Hd Howner]. apply String.eqb_eq in Howner.
  assert (Hlen : (String.length (s_token (summary d)) <= 15)%nat).
  { simpl. unfold redact. rewrite append_length.
    pose proof (substring_length_le 12 (token d)). simpl. lia. }
  split; [exact Hlen|]. split; [exists d; auto|].
  intros e now Heq. rewrite Heq in Hlen.
  pose proof (generated_secret_length e now). lia.
Qed.

End Listing.

(** ** Well-formed stores, and the properties above on sample data *)

Section WellFormed.
Import Eff Tokens.

Lemma exec_well_formed now op (st : Store) :
  well_formed st -> well_formed (exec now op st).
Proof.
  intros Hst. destruct op as [e uid maxS maxM minutes | tok
    | tok incS incM | tok minutes | tok | ]; simpl.
  - unfold transaction, generateEphemeralToken, bind, user_by_token, gets.
    destruct (List.find _ (users st)); [|exact Hst].
    unfold db_insert, ret. simpl. destruct Hst as [Hnd Hlt]. split; simpl.
    + rewrite List.map_app. simpl.
      apply NoDup_app. split; [exact Hnd|]. split; [|apply NoDup_singleton].
      intros x Hx Hx'. apply list_elem_of_In in Hx'. destruct Hx' as [<-|[]].
      apply list_elem_of_In, List.in_map_iff in Hx as (y & Hy & Hin).
      rewrite List.Forall_forall in Hlt. apply Hlt in Hin. lia.
    + apply Forall_app. split.
      * eapply List.Forall_impl; [|exact Hlt]. simpl. intros; lia.
      * constructor; [simpl; lia | constructor].
  - now rewrite validateEphemeralToken_reads_only.
  - unfold transaction.
    destruct (lookup tok st) as [d|] eqn:Hd.
    + rewrite (updateTokenUsage_found now tok incS incM st d Hd). simpl.
      now apply db_patch_well_formed.
    + now rewrite (updateTokenUsage_missing now tok incS incM st Hd).
  - unfold transaction.
    destruct (lookup tok st) as [d|] eqn:Hd.
    + destruct (isActive d) eqn:Hactive.
      * rewrite (refreshEphemeralToken_found now tok minutes st d Hd Hactive).
        simpl. now apply db_patch_well_formed.
      * unfold refreshEphemeralToken, bind, first_by_token, gets.
        unfold lookup in Hd. now rewrite Hd, Hactive.
    + unfold refreshEphemeralToken, bind, first_by_token, gets.
      unfold lookup in Hd. now rewrite Hd.
  - unfold transaction.
    destruct (lookup tok st) as [d|] eqn:Hd.
    + rewrite (deactivateEphemeralToken_found now tok st d Hd). simpl.
      now apply db_patch_well_formed.
    + unfold deactivateEphemeralToken, bind, first_by_token, gets.
      unfold lookup in Hd. now rewrite Hd.
  - unfold transaction, cleanupExpiredTokens, bind, collect, gets.
    rewrite delete_all_filters. unfold ret. simpl.
    now apply filter_well_formed.
Qed.

(** Every store the operations build from an empty table is well formed. *)
Lemma run_well_formed (ops : list (Z * Op)) (users : list string) :
  well_formed (run ops (empty_store users)).
Proof.
  assert (H : forall st, well_formed st -> well_formed (run ops st)).
  { induction ops as [|[now op] ops IH]; intros st Hst; [exact Hst|].
    simpl. apply IH. now apply exec_well_formed. }
  apply H. split; simpl; constructor.
Qed.

End WellFormed.

(** The token of scenario A, validated one second after it was issued. *)
Lemma issued_token_is_valid_witness :
  Tokens.generateEphemeralToken sample_entropy 1000 "user_1" (Some 3) None None
    (Tokens.empty_store ["user_1"]) = (Eff.Returned scenario_grant, scenario_db)
  /\ Tokens.lookup sample_token (Tokens.empty_store ["user_1"]) = None
  /\ 0 < 3 /\ 0 < 1000 /\ 2000 <= 3601000
  /\ Tokens.validateEphemeralToken 2000 sample_token scenario_db
     = (Eff.Returned
          {| Tokens.isValid := true; Tokens.error := None;
             Tokens.v_userId := Some "user_1";
             Tokens.v_sessionsUsed := Some 0; Tokens.v_messagesUsed := Some 0;
             Tokens.v_maxSessions := Some 3;
             Tokens.v_maxMessages := Some 1000;
             Tokens.v_expiresAt := Some 3601000 |},
        scenario_db).
Proof.
  split; [reflexivity|]. split; [reflexivity|].
  split; [reflexivity|]. split; [reflexivity|]. split; [discriminate|].
  apply (issued_token_is_valid sample_entropy 1000 2000 "user_1" (Some 3) None None
           (Tokens.empty_store ["user_1"]) scenario_db scenario_grant);
    try reflexivity; discriminate.
Defined.

(** The sample token deactivated at time 2000. *)
Lemma deactivated_token_is_refused_witness :
  Tokens.lookup sample_token sample_store = Some sample_doc
  /\ let st1 := snd (Tokens.deactivateEphemeralToken 2000 sample_token sample_store) in
     forall now minutes,
       Tokens.validateEphemeralToken now sample_token st1
       = (Eff.Returned (Tokens.invalid Tokens.Deactivated), st1)
       /\ Tokens.error (Tokens.invalid Tokens.Deactivated) = Some "Token is deactivated"
       /\ Tokens.refreshEphemeralToken now sample_token minutes st1
          = (Eff.Thrown "Cannot refresh inactive token", st1).
Proof.
  split; [reflexivity|].
  apply (deactivated_token_is_refused 2000 sample_token sample_store sample_doc).
  reflexivity.
Defined.


(** Two tokens, of which the second has expired at time 100000. *)
Lemma cleanup_keeps_exactly_live_tokens_witness :
  well_formed two_token_store
  /\ exists c st',
       Tokens.cleanupExpiredTokens 100000 two_token_store = (Eff.Returned c, st')
       /\ (forall d, In d (Tokens.ephemeralTokens st')
                     <-> In d (Tokens.ephemeralTokens two_token_store)
                         /\ Tokens.isActive d = true /\ 100000 <= Tokens.expiresAt d)
       /\ (Tokens.cleaned c + List.length (Tokens.ephemeralTokens st')
           = List.length (Tokens.ephemeralTokens two_token_store))%nat
       /\ Tokens.timestamp c = 100000
       /\ Tokens.users st' = Tokens.users two_token_store.
Proof.
  pose proof (run_well_formed [sample_issue; second_issue] ["user_1"]) as Hwf.
  split; [exact Hwf|].
  exact (cleanup_keeps_exactly_live_tokens 100000 two_token_store Hwf).
Defined.

Example cleanup_two_token_store :
  Tokens.cleanupExpiredTokens 100000 two_token_store
  = (Eff.Returned {| Tokens.cleaned := 1; Tokens.timestamp := 100000 |},
     {| Tokens.users := ["user_1"];
        Tokens.ephemeralTokens := [sample_doc];
        Tokens.nextId := 2 |}).
Proof. reflexivity. Qed.

Lemma cleanup_again_deletes_nothing_witness :
  well_formed two_token_store
  /\ let st1 := snd (Tokens.cleanupExpiredTokens 100000 two_token_store) in
     Tokens.cleanupExpiredTokens 100000 st1
     = (Eff.Returned {| Tokens.cleaned := 0; Tokens.timestamp := 100000 |}, st1).
Proof.
  pose proof (run_well_formed [sample_issue; second_issue] ["user_1"]) as Hwf.
  split; [exact Hwf|].
  exact (cleanup_again_deletes_nothing 100000 two_token_store Hwf).
Defined.

Lemma cleanup_keeps_valid_tokens_witness :
  well_formed two_token_store
  /\ fst (Tokens.validateEphemeralToken 100000 sample_token two_token_store)
     = Eff.Returned (Tokens.valid sample_doc)
  /\ Tokens.isValid (Tokens.valid sample_doc) = true
  /\ let st1 := snd (Tokens.cleanupExpiredTokens 100000 two_token_store) in
     Tokens.validateEphemeralToken 100000 sample_token st1
     = (Eff.Returned (Tokens.valid sample_doc), st1).
Proof.
  pose proof (run_well_formed [sample_issue; second_issue] ["user_1"]) as Hwf.
  split; [exact Hwf|]. split; [reflexivity|]. split; [reflexivity|].
  apply (cleanup_keeps_valid_tokens 100000 sample_token two_token_store
           (Tokens.valid sample_doc) Hwf); reflexivity.
Defined.

(** The revoked sample token, then refreshed, metered and deactivated
    again. *)
Lemma inactive_stays_inactive_witness :
  well_formed revoked_store
  /\ In revoked_doc (Tokens.ephemeralTokens revoked_store)
  /\ Tokens.isActive revoked_doc = false
  /\ forall d', In d' (Tokens.ephemeralTokens (Tokens.run later_history revoked_store)) ->
                Tokens._id d' = Tokens._id revoked_doc ->
                Tokens.isActive d' = false.
Proof.
  pose proof (run_well_formed [sample_issue; (2000, Tokens.Deactivate sample_token)]
                ["user_1"]) as Hwf.
  split; [exact Hwf|]. split; [left; reflexivity|]. split; [reflexivity|].
  apply (inactive_stays_inactive later_history revoked_store revoked_doc Hwf);
    [left; reflexivity | reflexivity].
Defined.

(** ** Messages, provider callbacks and the registry *)

Section Messages.
Import Eff Proxy Messaging.

Implicit Types (st : State) (w : World) (sid tok : string) (now : Z)
  (s : GeminiSession) (d : Tokens.TokenDoc).

(** A message to a session that is not registered, or that a provider error
    has marked inactive, is answered 404 before the token is looked at:
    nothing is forwarded and nothing is metered. *)
Theorem message_to_missing_session_is_refused now (send_throws : bool) sid
    (message : option Message) (messageType ephemeralToken : option string) w :
  sid <> "" ->
  match activeSessions (registry w) !! sid with
  | Some s => isActive s = false
  | None => True
  end ->
  send_message now send_throws (Some sid) message messageType ephemeralToken w
  = (Returned (respond_error 404 "Session not found or inactive"), w).
Proof.
  intros Hsid Hs. destruct w as [st sent0].
  unfold send_message, try_catch, send_message_body.
  rewrite (present_nonempty sid Hsid).
  unfold bind at 1. unfold on_registry at 1, sessions_get, gets.
  cbn [registry sent] in *.
  destruct (activeSessions st !! sid) as [s|]; [|reflexivity].
  now rewrite Hs.
Qed.




(** An audio chunk sent without a token is forwarded as realtime input,
    with the default MIME type when the request gives none; the token store
    is not touched. *)
Theorem audio_chunk_is_forwarded_unmetered now sid (audioData mimeType : option string)
    w s (c : Connection) :
  sid <> "" ->
  activeSessions (registry w) !! sid = Some s ->
  isActive s = true ->
  geminiConnection s = Some c ->
  exists w',
    send_message now false (Some sid) (Some (AudioMessage audioData mimeType))
                 (Some "audio") None w
    = (Returned (respond (StatusBody "message_sent")), w')
    /\ sent w'
       = RealtimeInput c audioData
           (match mimeType with
            | Some "" | None => "audio/pcm;rate=16000"
            | Some m => m
            end) :: sent w
    /\ activeSessions (registry w') !! sid = Some (touch now s)
    /\ db (registry w') = db (registry w).
Proof.
  intros Hsid Hs Hactive Hc.
  destruct w as [st sent0]. cbn [registry sent] in *.
  unfold send_message, try_catch, send_message_body.
  rewrite (present_nonempty sid Hsid).
  unfold bind at 1. unfold on_registry at 1, sessions_get, gets.
  cbn [registry sent]. rewrite Hs, Hactive. cbn [negb JS.present].
  unfold bind at 1. unfold ret at 1.
  change (String.eqb "audio" "text") with false.
  change (String.eqb "audio" "audio") with true. cbv iota. rewrite Hc.
  unfold bind, forward, modify, on_registry, sessions_set, with_sessions, ret.
  cbn [registry sent]. eexists. split; [reflexivity|].
  cbn [registry sent activeSessions db].
  split; [|split; [apply lookup_insert_eq | reflexivity]].
  destruct mimeType as [[|a m]|]; reflexivity.
Qed.


(** The token check of [send_message] is the validator's, session quota
    included: once a token's sessions are used up, every message presenting
    it is answered 403 "Session limit exceeded", however many messages the
    token has left, and nothing is forwarded or written. *)
Theorem used_up_sessions_block_messages now (send_throws : bool) sid tok
    (message : option Message) (messageType : option string) w s d :
  sid <> "" -> tok <> "" ->
  activeSessions (registry w) !! sid = Some s ->
  isActive s = true ->
  Tokens.lookup tok (db (registry w)) = Some d ->
  Tokens.isActive d = true ->
  now <= Tokens.expiresAt d ->
  Tokens.maxSessions d <= Tokens.sessionsUsed d ->
  send_message now send_throws (Some sid) message messageType (Some tok) w
  = (Returned
       (respond_error 403
          ("Token validation failed: "
           +:+ Tokens.message_of Tokens.SessionQuotaExceeded)),
     w).
Proof.
  intros Hsid Htok Hs Hactive Hd Hda Hnow Hds.
  destruct w as [st sent0]. cbn [registry sent] in *.
  unfold send_message, try_catch, send_message_body.
  rewrite (present_nonempty sid Hsid).
  unfold bind at 1. unfold on_registry at 1, sessions_get, gets.
  cbn [registry sent]. rewrite Hs, Hactive. cbn [negb].
  rewrite (present_nonempty tok Htok).
  unfold bind at 1. unfold bind at 1. unfold on_registry at 1, runQuery.
  cbn [registry sent].
  rewrite (validate_refuses_sessions now tok (db st) d) by assumption.
  reflexivity.
Qed.





(** *** Sessions against tokens *)


(** A [create_session] request that presents no token (or an empty one) is
    neither validated nor metered: given a userId and a connection it is
    answered [connected] and registered, and the token store is as it
    was. *)
Theorem session_without_token_is_unmetered now (p : Provider) (c : Connection)
    (uid : string) (ephemeralToken : option string) st :
  uid <> "" ->
  ephemeralToken = None \/ ephemeralToken = Some "" ->
  connect p = Some c ->
  exists st' s,
    geminiLiveProxy now (CreateSession p (Some uid) ephemeralToken) st
    = (Returned (respond (SessionCreated (newSessionId p) "connected" MODEL)), st')
    /\ activeSessions st' = <[newSessionId p := s]> (activeSessions st)
    /\ userId s = uid /\ isActive s = true /\ lastActivity s = now
    /\ geminiConnection s = Some c
    /\ db st' = db st.
Proof.
  intros Huid Htok Hc.
  unfold geminiLiveProxy, try_catch, create_session_body.
  rewrite (present_nonempty uid Huid).
  assert (Hnone : JS.present ephemeralToken = None)
    by (destruct Htok as [-> | ->]; reflexivity).
  rewrite Hnone. unfold bind at 1. unfold ret at 1. rewrite Hc.
  unfold bind, sessions_set, modify, with_sessions, ret.
  eexists _, _. split; [reflexivity|]. cbn. repeat split; reflexivity.
Qed.

(** *** What the registry reports *)

Lemma sweep_lookup now st :
  exists st',
    cleanupInactiveSessions now st = (Returned tt, st')
    /\ forall sid,
         activeSessions st' !! sid
         = match activeSessions st !! sid with
           | Some s => if timed_out now s then None else Some s
           | None => None
           end.
Proof.
  unfold cleanupInactiveSessions.
  destruct (cleanup_entries_spec now (map_to_list (activeSessions st)) st)
    as (st' & Hrun & _ & Hmap & _ & _).
  exists st'. split; [exact Hrun|].
  intros sid. rewrite Hmap, idle_in_map_to_list.
  destruct (activeSessions st !! sid) as [s|]; reflexivity.
Qed.

(** After the sweep has found a session idle, [session_status] reports it
    with [isActive: false] and neither activity time nor owner, and
    [list_sessions] lists only sessions that were registered under another
    identifier before the sweep. *)
Theorem swept_session_is_gone now sid st s :
  activeSessions st !! sid = Some s ->
  now - lastActivity s > 15 * 60 * 1000 ->
  let st1 := snd (cleanupInactiveSessions now st) in
  session_status sid st1
  = {| s_sessionId := sid; s_isActive := false;
       s_lastActivity := None; s_userId := None |}
  /\ forall x, In x (fst (list_sessions st1)) ->
       exists other s', other <> sid
                        /\ activeSessions st !! other = Some s'
                        /\ x = session_summary s'.
Proof.
  intros Hs Hidle st1. subst st1.
  destruct (sweep_lookup now st) as (st' & -> & Hmap). cbn [snd].
  assert (Hgone : activeSessions st' !! sid = None).
  { rewrite Hmap, Hs. unfold timed_out, TIMEOUT_MS.
    replace (now - lastActivity s >? 15 * 60 * 1000) with true
      by (symmetry; apply Z.gtb_lt; lia). reflexivity. }
  split.
  - unfold session_status. now rewrite Hgone.
  - intros x Hx. unfold list_sessions in Hx. cbn [fst] in Hx.
    apply List.in_map_iff in Hx as ([other s'] & <- & Hin).
    apply list_elem_of_In, elem_of_map_to_list in Hin.
    exists other, s'. split; [congruence|]. split; [|reflexivity].
    rewrite Hmap in Hin. destruct (activeSessions st !! other) as [s0|]; [|discriminate].
    destruct (timed_out now s0); [discriminate | exact Hin].
Qed.

(** A provider message keeps the session: after [onmessage] at time [t],
    a sweep made no later than 15 minutes after [t] leaves the session
    registered, with [t] as its last activity. *)
Theorem activity_postpones_the_sweep t now sid st s :
  activeSessions st !! sid = Some s ->
  now - t <= 15 * 60 * 1000 ->
  let st1 := snd (onmessage t sid st) in
  activeSessions (snd (cleanupInactiveSessions now st1)) !! sid = Some (touch t s).
Proof.
  intros Hs Hrecent st1.
  assert (H1 : activeSessions st1 !! sid = Some (touch t s)).
  { subst st1. unfold onmessage, bind, sessions_get, gets. rewrite Hs.
    unfold sessions_set, modify, with_sessions. cbn. apply lookup_insert_eq. }
  destruct (sweep_lookup now st1) as (st' & -> & Hmap). cbn [snd].
  rewrite Hmap, H1. unfold timed_out, TIMEOUT_MS. cbn [lastActivity touch].
  replace (now - t >? 15 * 60 * 1000) with false
    by (symmetry; rewrite Z.gtb_ltb; apply Z.ltb_ge; lia).
  reflexivity.
Qed.

(** A provider error marks the session inactive and leaves it registered:
    [session_status] still reports its owner and last activity, with
    [isActive: false], and every message to it is answered 404 without the
    token being metered. *)
Theorem provider_error_blocks_messages sid st s :
  sid <> "" ->
  activeSessions st !! sid = Some s ->
  let st1 := snd (onerror sid st) in
  session_status sid st1
  = {| s_sessionId := sid; s_isActive := false;
       s_lastActivity := Some (lastActivity s); s_userId := Some (userId s) |}
  /\ db st1 = db st
  /\ forall now send_throws message messageType ephemeralToken sent0,
       send_message now send_throws (Some sid) message messageType ephemeralToken
         {| registry := st1; sent := sent0 |}
       = (Returned (respond_error 404 "Session not found or inactive"),
          {| registry := st1; sent := sent0 |}).
Proof.
  intros Hsid Hs st1.
  assert (H1 : activeSessions st1 !! sid = Some (mark_inactive s)).
  { subst st1. unfold onerror, bind, sessions_get, gets. rewrite Hs.
    unfold sessions_set, modify, with_sessions. cbn. apply lookup_insert_eq. }
  split; [unfold session_status; now rewrite H1|].
  split.
  - subst st1. unfold onerror, bind, sessions_get, gets. rewrite Hs. reflexivity.
  - intros now send_throws message messageType ephemeralToken sent0.
    unfold send_message, try_catch, send_message_body.
    rewrite (present_nonempty sid Hsid).
    unfold bind at 1. unfold on_registry at 1, sessions_get, gets.
    cbn [registry sent]. now rewrite H1.
Qed.

End Messages.

(** *** The properties above on the sample proxy *)

(** A message to an identifier that was never registered, with a valid
    token. *)
Lemma message_to_missing_session_is_refused_witness :
  "gemini-0-none" <> ""
  /\ match Proxy.activeSessions (Messaging.registry sample_world) !! "gemini-0-none" with
     | Some s => Proxy.isActive s = false
     | None => True
     end
  /\ Messaging.send_message 2000 false (Some "gemini-0-none") hello None
       (Some sample_token) sample_world
     = (Eff.Returned (Proxy.respond_error 404 "Session not found or inactive"),
        sample_world).
Proof.
  split; [discriminate|]. split; [exact I|].
  apply (message_to_missing_session_is_refused 2000 false "gemini-0-none" hello None
           (Some sample_token) sample_world); [discriminate | exact I].
Defined.


Lemma audio_chunk_is_forwarded_unmetered_witness :
  "gemini-1000-abc" <> ""
  /\ Proxy.activeSessions (Messaging.registry sample_world) !! "gemini-1000-abc"
     = Some sample_session
  /\ Proxy.isActive sample_session = true
  /\ Proxy.geminiConnection sample_session = Some sample_connection
  /\ exists w',
       Messaging.send_message 2000 false (Some "gemini-1000-abc")
         (Some (Messaging.AudioMessage (Some "UklGRg") None)) (Some "audio") None
         sample_world
       = (Eff.Returned (Proxy.respond (Proxy.StatusBody "message_sent")), w')
       /\ Messaging.sent w'
          = Messaging.RealtimeInput sample_connection (Some "UklGRg")
              "audio/pcm;rate=16000" :: Messaging.sent sample_world
       /\ Proxy.activeSessions (Messaging.registry w') !! "gemini-1000-abc"
          = Some (Messaging.touch 2000 sample_session)
       /\ Proxy.db (Messaging.registry w') = Proxy.db (Messaging.registry sample_world).
Proof.
  split; [discriminate|]. split; [reflexivity|]. split; [reflexivity|].
  split; [reflexivity|].
  apply (audio_chunk_is_forwarded_unmetered 2000 "gemini-1000-abc" (Some "UklGRg") None
           sample_world sample_session sample_connection);
    try reflexivity; discriminate.
Defined.


(** The sample token after its five sessions are used: 1000 messages are
    left, and none gets through. *)
Lemma used_up_sessions_block_messages_witness :
  "gemini-1000-abc" <> "" /\ sample_token <> ""
  /\ Proxy.activeSessions (Messaging.registry used_up_world) !! "gemini-1000-abc"
     = Some sample_session
  /\ Proxy.isActive sample_session = true
  /\ Tokens.lookup sample_token (Proxy.db (Messaging.registry used_up_world))
     = Some used_up_doc
  /\ Tokens.isActive used_up_doc = true
  /\ 2000 <= Tokens.expiresAt used_up_doc
  /\ Tokens.maxSessions used_up_doc <= Tokens.sessionsUsed used_up_doc
  /\ Messaging.send_message 2000 false (Some "gemini-1000-abc") hello None
       (Some sample_token) used_up_world
     = (Eff.Returned
          (Proxy.respond_error 403
             ("Token validation failed: "
              +:+ Tokens.message_of Tokens.SessionQuotaExceeded)),
        used_up_world).
Proof.
  split; [discriminate|]. split; [discriminate|]. split; [reflexivity|].
  split; [reflexivity|]. split; [reflexivity|]. split; [reflexivity|].
  split; [discriminate|]. split; [discriminate|].
  apply (used_up_sessions_block_messages 2000 false "gemini-1000-abc" sample_token
           hello None used_up_world sample_session used_up_doc);
    try reflexivity; discriminate.
Defined.



(** A session opened without a token over the store whose token is used
    up. *)
Lemma session_without_token_is_unmetered_witness :
  let p := scenario_provider 7 "gemini-2000-free" in
  let st := Messaging.registry used_up_world in
  "user_1" <> ""
  /\ (@None string = None \/ @None string = Some "")
  /\ Proxy.connect p = Some {| Proxy.handle := 7; Proxy.close_throws := false |}
  /\ exists st' s,
       Proxy.geminiLiveProxy 2000 (Proxy.CreateSession p (Some "user_1") None) st
       = (Eff.Returned
            (Proxy.respond
               (Proxy.SessionCreated (Proxy.newSessionId p) "connected" Proxy.MODEL)),
          st')
       /\ Proxy.activeSessions st' = <[Proxy.newSessionId p := s]> (Proxy.activeSessions st)
       /\ Proxy.userId s = "user_1" /\ Proxy.isActive s = true
       /\ Proxy.lastActivity s = 2000
       /\ Proxy.geminiConnection s
          = Some {| Proxy.handle := 7; Proxy.close_throws := false |}
       /\ Proxy.db st' = Proxy.db st.
Proof.
  cbv zeta. split; [discriminate|]. split; [left; reflexivity|].
  split; [reflexivity|].
  apply (session_without_token_is_unmetered 2000 (scenario_provider 7 "gemini-2000-free")
           {| Proxy.handle := 7; Proxy.close_throws := false |} "user_1" None
           (Messaging.registry used_up_world));
    [discriminate | left; reflexivity | reflexivity].
Defined.

(** The sample session, last active at time 1000, swept at time 901001. *)
Lemma swept_session_is_gone_witness :
  Proxy.activeSessions sample_proxy !! "gemini-1000-abc" = Some sample_session
  /\ 901001 - Proxy.lastActivity sample_session > 15 * 60 * 1000
  /\ let st1 := snd (Proxy.cleanupInactiveSessions 901001 sample_proxy) in
     Proxy.session_status "gemini-1000-abc" st1
     = {| Proxy.s_sessionId := "gemini-1000-abc"; Proxy.s_isActive := false;
          Proxy.s_lastActivity := None; Proxy.s_userId := None |}
     /\ forall x, In x (fst (Messaging.list_sessions st1)) ->
          exists other s', other <> "gemini-1000-abc"
                           /\ Proxy.activeSessions sample_proxy !! other = Some s'
                           /\ x = Messaging.session_summary s'.
Proof.
  split; [reflexivity|]. split; [reflexivity|].
  apply (swept_session_is_gone 901001 "gemini-1000-abc" sample_proxy sample_session);
    reflexivity.
Defined.

(** The sample session hears from the provider at time 500000 and is swept
    at time 1000000. *)
Lemma activity_postpones_the_sweep_witness :
  Proxy.activeSessions sample_proxy !! "gemini-1000-abc" = Some sample_session
  /\ 1000000 - 500000 <= 15 * 60 * 1000
  /\ let st1 := snd (Messaging.onmessage 500000 "gemini-1000-abc" sample_proxy) in
     Proxy.activeSessions (snd (Proxy.cleanupInactiveSessions 1000000 st1))
       !! "gemini-1000-abc"
     = Some (Messaging.touch 500000 sample_session).
Proof.
  split; [reflexivity|]. split; [discriminate|].
  apply (activity_postpones_the_sweep 500000 1000000 "gemini-1000-abc" sample_proxy
           sample_session); [reflexivity | discriminate].
Defined.

Lemma provider_error_blocks_messages_witness :
  "gemini-1000-abc" <> ""
  /\ Proxy.activeSessions sample_proxy !! "gemini-1000-abc" = Some sample_session
  /\ let st1 := snd (Proxy.onerror "gemini-1000-abc" sample_proxy) in
     Proxy.session_status "gemini-1000-abc" st1
     = {| Proxy.s_sessionId := "gemini-1000-abc"; Proxy.s_isActive := false;
          Proxy.s_lastActivity := Some (Proxy.lastActivity sample_session);
          Proxy.s_userId := Some (Proxy.userId sample_session) |}
     /\ Proxy.db st1 = Proxy.db sample_proxy
     /\ forall now send_throws message messageType ephemeralToken sent0,
          Messaging.send_message now send_throws (Some "gemini-1000-abc") message
            messageType ephemeralToken
            {| Messaging.registry := st1; Messaging.sent := sent0 |}
          = (Eff.Returned (Proxy.respond_error 404 "Session not found or inactive"),
             {| Messaging.registry := st1; Messaging.sent := sent0 |}).
Proof.
  split; [discriminate|]. split; [reflexivity|].
  apply (provider_error_blocks_messages "gemini-1000-abc" sample_proxy sample_session);
    [discriminate | reflexivity].
Defined.

(** ** The token cache in the browser *)

Section CacheUse.
Import Eff TokenService TokenClient.

Variable JSON_parse : string -> option TokenInfo.
Variable JSON_stringify : TokenInfo -> string.

Implicit Types (b : Browser) (now : Z) (info : TokenInfo).

Lemma storeToken_stores info b :
  window_defined b = true -> storage_blocked b = false ->
  storeToken JSON_stringify info b
  = (Returned tt,
     with_storage b
       (<[TOKEN_INFO_KEY := JSON_stringify info]>
          (<[TOKEN_KEY := token info]> (localStorage b)))).
Proof.
  intros Hw Hs. unfold storeToken, bind, gets, try_catch, setItem.
  rewrite Hw. simpl. rewrite Hs. simpl. now rewrite Hs.
Qed.

Lemma getTokenInfo_reads now b raw info :
  window_defined b = true -> storage_blocked b = false ->
  localStorage b !! TOKEN_INFO_KEY = Some raw -> raw <> "" ->
  JSON_parse raw = Some info ->
  now <= expiresAt info ->
  getTokenInfo JSON_parse now b = (Returned (Some info), b).
Proof.
  intros Hw Hs Hraw Hne Hparse Hnow.
  unfold getTokenInfo, bind, gets, try_catch, getItem.
  rewrite Hw. simpl. rewrite Hs, Hraw, (present_nonempty raw Hne).
  unfold parse. rewrite Hparse. unfold ret at 1.
  replace (now >? expiresAt info) with false
    by (symmetry; rewrite Z.gtb_ltb; apply Z.ltb_ge; lia).
  reflexivity.
Qed.

(** Round trip: a record stored with [storeToken] is what [getTokenInfo]
    returns until it expires, [getToken] returns its secret, and
    [isTokenValid] holds as long as the expiry lies ahead; reading changes
    nothing. The platform is asked for one thing: it parses back what it
    wrote for this record, and what it wrote is not the empty text. *)
Theorem stored_record_is_read_back now now' info b :
  window_defined b = true -> storage_blocked b = false ->
  JSON_parse (JSON_stringify info) = Some info ->
  JSON_stringify info <> "" ->
  now <= expiresAt info ->
  let b1 := snd (storeToken JSON_stringify info b) in
  getTokenInfo JSON_parse now b1 = (Returned (Some info), b1)
  /\ getToken b1 = (Returned (Some (token info)), b1)
  /\ isTokenValid JSON_parse now now' b1 = (Returned (now' <? expiresAt info), b1).
Proof.
  intros Hw Hs Hcodec Hne Hnow b1. subst b1.
  rewrite (storeToken_stores info b Hw Hs). cbn [snd].
  set (b1 := with_storage b _).
  assert (Hget : getTokenInfo JSON_parse now b1 = (Returned (Some info), b1)).
  { apply (getTokenInfo_reads now b1 (JSON_stringify info)); auto.
    subst b1. simpl. apply lookup_insert_eq. }
  split; [exact Hget|]. split.
  - unfold getToken, bind, gets, try_catch, getItem. subst b1. simpl.
    rewrite Hw. simpl. rewrite Hs.
    rewrite lookup_insert_ne by discriminate. now rewrite lookup_insert_eq.
  - unfold isTokenValid, bind. now rewrite Hget.
Qed.

Lemma clearToken_result b :
  exists b1,
    clearToken b = (Returned tt, b1)
    /\ window_defined b1 = window_defined b
    /\ storage_blocked b1 = storage_blocked b
    /\ (window_defined b = true -> storage_blocked b = false ->
        localStorage b1 = delete TOKEN_INFO_KEY (delete TOKEN_KEY (localStorage b))).
Proof.
  unfold clearToken, bind, gets, try_catch, removeItem, warn, modify.
  destruct (window_defined b) eqn:Hw; simpl.
  - destruct (storage_blocked b) eqn:Hs; simpl.
    + eexists. split; [reflexivity|]. simpl. repeat split; auto. discriminate.
    + rewrite Hs. eexists. split; [reflexivity|]. simpl. repeat split; auto.
  - eexists. split; [reflexivity|]. repeat split; auto. discriminate.
Qed.

Lemma getToken_result b :
  fst (getToken b)
  = Returned (if window_defined b && negb (storage_blocked b)
              then localStorage b !! TOKEN_KEY else None).
Proof.
  unfold getToken, bind, gets, try_catch, getItem, warn, modify.
  destruct (window_defined b); simpl; [|reflexivity].
  destruct (storage_blocked b); reflexivity.
Qed.

Lemma getTokenInfo_absent now b :
  (window_defined b = true -> storage_blocked b = false ->
   localStorage b !! TOKEN_INFO_KEY = None) ->
  fst (getTokenInfo JSON_parse now b) = Returned None.
Proof.
  intros Habsent. unfold getTokenInfo, bind, gets, try_catch, getItem.
  destruct (window_defined b) eqn:Hw; simpl; [|reflexivity].
  destruct (storage_blocked b) eqn:Hs.
  - match goal with |- context [clearToken ?x] =>
      destruct (clearToken_never_throws x) as (b' & ->) end.
    reflexivity.
  - rewrite Habsent by reflexivity. reflexivity.
Qed.

(** After [clearToken], whatever the cache held and whatever the storage
    does, [getToken] and [getTokenInfo] return absent and [isTokenValid]
    returns false. *)
Theorem cleared_cache_is_empty now now' b :
  let b1 := snd (clearToken b) in
  fst (getToken b1) = Returned None
  /\ fst (getTokenInfo JSON_parse now b1) = Returned None
  /\ fst (isTokenValid JSON_parse now now' b1) = Returned false.
Proof.
  intros b1. subst b1.
  destruct (clearToken_result b) as (b1 & -> & Hw & Hs & Hstorage). cbn [snd].
  assert (Hget : fst (getTokenInfo JSON_parse now b1) = Returned None).
  { apply getTokenInfo_absent. intros Hw1 Hs1.
    rewrite Hstorage by congruence. apply lookup_delete_eq. }
  split; [|split; [exact Hget|]].
  - rewrite getToken_result.
    destruct (window_defined b1) eqn:Hw1; [|reflexivity].
    destruct (storage_blocked b1) eqn:Hs1; [reflexivity|]. simpl.
    rewrite Hstorage by congruence.
    rewrite lookup_delete_ne by discriminate. now rewrite lookup_delete_eq.
  - unfold isTokenValid, bind.
    destruct (getTokenInfo JSON_parse now b1) as [[r|e] b2]; simpl in *;
      [|discriminate]. now injection Hget as ->.
Qed.

(** At the very instant of expiry the two views disagree: [getTokenInfo]
    still returns the record, and keeps it cached, while [isTokenValid]
    already answers false; one millisecond later the record is cleared. *)
Theorem record_at_its_expiry info b raw :
  window_defined b = true -> storage_blocked b = false ->
  localStorage b !! TOKEN_INFO_KEY = Some raw -> raw <> "" ->
  JSON_parse raw = Some info ->
  let t := expiresAt info in
  getTokenInfo JSON_parse t b = (Returned (Some info), b)
  /\ isTokenValid JSON_parse t t b = (Returned false, b)
  /\ exists b',
       getTokenInfo JSON_parse (t + 1) b = (Returned None, b')
       /\ localStorage b' !! TOKEN_INFO_KEY = None
       /\ localStorage b' !! TOKEN_KEY = None.
Proof.
  intros Hw Hs Hraw Hne Hparse t.
  assert (Hget : getTokenInfo JSON_parse t b = (Returned (Some info), b)).
  { apply (getTokenInfo_reads t b raw); auto. subst t. lia. }
  split; [exact Hget|]. split.
  - unfold isTokenValid, bind. rewrite Hget. unfold ret. subst t.
    now rewrite Z.ltb_irrefl.
  - unfold getTokenInfo, bind, gets, try_catch, getItem.
    rewrite Hw. simpl. rewrite Hs, Hraw, (present_nonempty raw Hne).
    unfold parse. rewrite Hparse. unfold ret at 1.
    replace (t + 1 >? expiresAt info) with true
      by (symmetry; apply Z.gtb_lt; subst t; lia).
    rewrite clearToken_clears by assumption. simpl.
    eexists. split; [reflexivity|]. simpl.
    split; [apply lookup_delete_eq|].
    rewrite lookup_delete_ne by discriminate. apply lookup_delete_eq.
Qed.

(** [getTimeUntilExpiration] on a cached token record gives whole minutes,
    rounded down, and never a negative number: while the record has not
    expired the answer [m] says that the expiry lies at least [m] and less
    than [m + 1] minutes ahead of the second clock read (0 when the expiry
    falls between the two reads), and the cache is left as it is; once the
    record has expired the answer is [null]. *)
Theorem time_until_expiration_is_whole_minutes now now' b raw info :
  window_defined b = true -> storage_blocked b = false ->
  localStorage b !! TOKEN_INFO_KEY = Some raw -> raw <> "" ->
  JSON_parse raw = Some info ->
  (now <= expiresAt info ->
   exists m,
     getTimeUntilExpiration JSON_parse now now' b = (Returned (Some m), b)
     /\ 0 <= m
     /\ (now' <= expiresAt info ->
         m * 60000 <= expiresAt info - now' < (m + 1) * 60000)
     /\ (expiresAt info < now' -> m = 0))
  /\ (expiresAt info < now ->
      fst (getTimeUntilExpiration JSON_parse now now' b) = Returned None).
Proof.
  intros Hw Hs Hraw Hne Hparse. split.
  - intros Hnow. unfold getTimeUntilExpiration, bind.
    rewrite (getTokenInfo_reads now b raw info) by assumption.
    unfold ret, JS.math_max. eexists. split; [reflexivity|].
    change (60 * 1000) with 60000.
    pose proof (Z.div_mod (expiresAt info - now') 60000 ltac:(lia)) as Hdiv.
    pose proof (Z.mod_pos_bound (expiresAt info - now') 60000 ltac:(lia)) as Hmod.
    split; [lia|]. split.
    + intros Hle.
      assert (0 <= (expiresAt info - now') / 60000) by (apply Z.div_pos; lia).
      lia.
    + intros Hlt.
      assert ((expiresAt info - now') / 60000 < 0)
        by (apply Z.div_lt_upper_bound; lia).
      lia.
  - intros Hlate. unfold getTimeUntilExpiration, bind.
    unfold getTokenInfo, bind, gets, try_catch, getItem.
    rewrite Hw. simpl. rewrite Hs, Hraw, (present_nonempty raw Hne).
    unfold parse. rewrite Hparse. unfold ret at 1.
    replace (now >? expiresAt info) with true
      by (symmetry; apply Z.gtb_lt; lia).
    destruct (clearToken_result b) as (b1 & -> & _). reflexivity.
Qed.

(** No operation of [TokenStorage] throws, whatever the cache holds, also
    when there is no [window] or when the browser refuses access to the
    storage. *)
Theorem token_storage_never_throws now now' info b :
  (exists b', storeToken JSON_stringify info b = (Returned tt, b'))
  /\ (exists r b', getToken b = (Returned r, b'))
  /\ (exists b', clearToken b = (Returned tt, b'))
  /\ (exists r b', getTokenInfo JSON_parse now b = (Returned r, b'))
  /\ (exists r b', isTokenValid JSON_parse now now' b = (Returned r, b'))
  /\ (exists r b', getTimeUntilExpiration JSON_parse now now' b = (Returned r, b')).
Proof.
  split; [|split; [|split; [|split; [|split]]]].
  - unfold storeToken, bind, gets, try_catch, setItem, warn, modify.
    destruct (window_defined b); simpl; [|eauto].
    destruct (storage_blocked b) eqn:Hs; simpl; [eauto|]. rewrite Hs. eauto.
  - unfold getToken, bind, gets, try_catch, getItem, warn, modify.
    destruct (window_defined b); simpl; [|eauto].
    destruct (storage_blocked b); simpl; eauto.
  - apply clearToken_never_throws.
  - apply getTokenInfo_never_throws.
  - apply isTokenValid_never_throws.
  - unfold getTimeUntilExpiration, bind.
    destruct (getTokenInfo_never_throws JSON_parse now b) as ([info'|] & b' & ->);
      unfold ret; eauto.
Qed.

End CacheUse.

Lemma stored_record_is_read_back_witness :
  let b1 := snd (TokenService.storeToken sample_stringify sample_info empty_browser) in
  TokenService.getTokenInfo sample_parse 1000 b1 = (Eff.Returned (Some sample_info), b1)
  /\ TokenService.getToken b1 = (Eff.Returned (Some sample_token), b1)
  /\ TokenService.isTokenValid sample_parse 1000 2000 b1
     = (Eff.Returned (2000 <? 3601000), b1).
Proof.
  apply (stored_record_is_read_back sample_parse sample_stringify 1000 2000
           sample_info empty_browser);
    [reflexivity | reflexivity | reflexivity | discriminate | vm_compute; discriminate].
Defined.

Lemma record_at_its_expiry_witness :
  let b := cache_holding sample_record in
  TokenService.getTokenInfo sample_parse 3601000 b = (Eff.Returned (Some sample_info), b)
  /\ TokenService.isTokenValid sample_parse 3601000 3601000 b = (Eff.Returned false, b)
  /\ exists b',
       TokenService.getTokenInfo sample_parse 3601001 b = (Eff.Returned None, b')
       /\ TokenService.localStorage b' !! TokenService.TOKEN_INFO_KEY = None
       /\ TokenService.localStorage b' !! TokenService.TOKEN_KEY = None.
Proof.
  apply (record_at_its_expiry sample_parse sample_info (cache_holding sample_record)
           sample_record);
    [reflexivity | reflexivity | reflexivity | discriminate | reflexivity].
Defined.

Lemma time_until_expiration_is_whole_minutes_witness :
  exists m,
    TokenClient.getTimeUntilExpiration sample_parse 1000 2000
      (cache_holding sample_record)
    = (Eff.Returned (Some m), cache_holding sample_record)
    /\ 0 <= m
    /\ m * 60000 <= 3601000 - 2000 < (m + 1) * 60000.
Proof.
  destruct (time_until_expiration_is_whole_minutes sample_parse 1000 2000
              (cache_holding sample_record) sample_record sample_info)
    as [Hlive _];
    [reflexivity | reflexivity | reflexivity | discriminate | reflexivity |].
  destruct Hlive as (m & Hrun & Hpos & Hahead & _); [vm_compute; discriminate|].
  exists m. split; [exact Hrun|]. split; [exact Hpos|].
  apply Hahead. vm_compute; discriminate.
Defined.

(** ** The automatic token manager *)

Section Manager.
Import Eff TokenService TokenClient.

Variable JSON_parse : string -> option TokenInfo.
Variable JSON_stringify : TokenInfo -> string.

Implicit Types (b : Browser) (c : Client) (info : TokenInfo).

(** What [setupAutoRefresh] leaves when the manager holds no timer. *)
Lemma setupAutoRefresh_first now info c :
  held_timer (refreshTimer (manager c)) = None ->
  setupAutoRefresh now info c
  = (Returned tt,
     {| browser := browser c;
        manager :=
          if expiresAt info - now - REFRESH_MARGIN_MS >? 0
          then setTimeout (expiresAt info - now - REFRESH_MARGIN_MS) info (manager c)
          else manager c |}).
Proof.
  intros Hheld. unfold setupAutoRefresh, bind, gets. rewrite Hheld.
  unfold ret at 1.
  destruct (expiresAt info - now - REFRESH_MARGIN_MS >? 0).
  - reflexivity.
  - unfold ret. now destruct c.
Qed.

(** A valid cached record is reused: [ensureValidToken] returns its secret
    without calling [generateToken] (whatever that would resolve to), and
    leaves the cache and the record of notifications as they were. A manager
    that holds no timer schedules one renewal, five minutes before the
    expiry, when the expiry is more than five minutes ahead. *)
Theorem cached_token_is_reused t1 t2 t3 (generated : option TokenInfo) c raw info :
  window_defined (browser c) = true -> storage_blocked (browser c) = false ->
  localStorage (browser c) !! TOKEN_INFO_KEY = Some raw -> raw <> "" ->
  JSON_parse raw = Some info ->
  t1 <= expiresAt info -> t2 <= expiresAt info ->
  exists c',
    ensureValidToken JSON_parse JSON_stringify t1 t2 t3 generated c
    = (Returned (token info), c')
    /\ browser c' = browser c
    /\ notified (manager c') = notified (manager c)
    /\ match held_timer (refreshTimer (manager c)) with
       | Some _ => manager c' = manager c
       | None =>
           let wait := expiresAt info - t3 - 5 * 60 * 1000 in
           if wait >? 0
           then scheduled (manager c')
                = Some {| timer_id := next_timer (manager c);
                          delay := wait; captured := info |}
           else manager c' = manager c
       end.
Proof.
  intros Hw Hs Hraw Hne Hparse Ht1 Ht2.
  unfold ensureValidToken. unfold bind at 1. unfold on_browser at 1.
  rewrite (getTokenInfo_reads JSON_parse t1 (browser c) raw info) by assumption.
  replace (t2 >? expiresAt info) with false
    by (symmetry; rewrite Z.gtb_ltb; apply Z.ltb_ge; lia).
  unfold bind at 1. unfold ret at 1.
  unfold bind at 1. unfold gets at 1. cbn [manager browser].
  destruct (held_timer (refreshTimer (manager c))) as [id|] eqn:Hheld.
  - unfold bind, ret. eexists. split; [reflexivity|]. cbn. auto.
  - unfold bind. rewrite setupAutoRefresh_first by exact Hheld.
    unfold ret. eexists. split; [reflexivity|]. cbn [browser manager].
    split; [reflexivity|].
    change (5 * 60 * 1000) with REFRESH_MARGIN_MS.
    destruct (expiresAt info - t3 - REFRESH_MARGIN_MS >? 0); cbn; auto.
Qed.

Lemma getTokenInfo_keeps_flags now b r b' :
  getTokenInfo JSON_parse now b = (r, b') ->
  window_defined b' = window_defined b /\ storage_blocked b' = storage_blocked b.
Proof.
  unfold getTokenInfo, bind, gets, try_catch, getItem.
  destruct (window_defined b) eqn:Hw; simpl; [|now intros [= _ <-]].
  destruct (storage_blocked b) eqn:Hs.
  - match goal with |- context [clearToken ?x] =>
      destruct (clearToken_result x) as (b1 & -> & Hw1 & Hs1 & _) end.
    intros [= _ <-]. simpl in *. split; congruence.
  - destruct (JS.present (localStorage b !! TOKEN_INFO_KEY)) as [text|];
      [|intros [= _ <-]; auto].
    unfold parse. destruct (JSON_parse text) as [info|].
    + unfold ret at 1. destruct (now >? expiresAt info).
      * destruct (clearToken_result b) as (b1 & -> & Hw1 & Hs1 & _).
        intros [= _ <-]. split; congruence.
      * intros [= _ <-]. auto.
    + unfold throw, warn, modify. simpl.
      match goal with |- context [clearToken ?x] =>
        destruct (clearToken_result x) as (b1 & -> & Hw1 & Hs1 & _) end.
      intros [= _ <-]. simpl in *. split; congruence.
Qed.

(** When no valid record is cached (none at all, an unreadable one or an
    expired one), [ensureValidToken] turns to [generateToken]. If that
    rejects, [ensureValidToken] rejects too and the manager is as it was. If
    it resolves, the new record is stored, passed to [onTokenRefresh], and
    its secret returned; a manager that holds no timer schedules the
    renewal five minutes before the expiry when that is still ahead. *)
Theorem missing_token_is_generated t1 t2 t3 (generated : option TokenInfo) c :
  window_defined (browser c) = true -> storage_blocked (browser c) = false ->
  fst (getTokenInfo JSON_parse t1 (browser c)) = Returned None ->
  match generated with
  | None =>
      exists c',
        ensureValidToken JSON_parse JSON_stringify t1 t2 t3 None c
        = (Thrown "generateToken rejected", c')
        /\ manager c' = manager c
  | Some info =>
      exists c',
        ensureValidToken JSON_parse JSON_stringify t1 t2 t3 (Some info) c
        = (Returned (token info), c')
        /\ localStorage (browser c') !! TOKEN_KEY = Some (token info)
        /\ localStorage (browser c') !! TOKEN_INFO_KEY = Some (JSON_stringify info)
        /\ notified (manager c') = info :: notified (manager c)
        /\ (held_timer (refreshTimer (manager c)) = None ->
            scheduled (manager c')
            = let wait := expiresAt info - t3 - 5 * 60 * 1000 in
              if wait >? 0
              then Some {| timer_id := next_timer (manager c);
                           delay := wait; captured := info |}
              else scheduled (manager c))
  end.
Proof.
  intros Hw Hs Hnone.
  destruct (getTokenInfo JSON_parse t1 (browser c)) as [r b1] eqn:Hget.
  cbn [fst] in Hnone. subst r.
  destruct (getTokenInfo_keeps_flags t1 (browser c) _ b1 Hget) as [Hw1 Hs1].
  rewrite Hw in Hw1. rewrite Hs in Hs1.
  destruct generated as [info|].
  - unfold ensureValidToken. unfold bind at 1. unfold on_browser at 1.
    rewrite Hget. unfold bind at 1. unfold bind at 1. unfold on_browser at 1.
    cbn [browser manager].
    rewrite (storeToken_stores JSON_stringify info b1 Hw1 Hs1).
    unfold bind at 1. unfold on_manager at 1, modify. unfold ret at 1.
    unfold bind at 1. unfold gets at 1. cbn [manager browser notify refreshTimer].
    destruct (held_timer (refreshTimer (manager c))) as [id|] eqn:Hheld.
    + unfold bind, ret. eexists. split; [reflexivity|]. cbn.
      split; [rewrite lookup_insert_ne by discriminate; apply lookup_insert_eq|].
      split; [apply lookup_insert_eq|]. split; [reflexivity | discriminate].
    + unfold bind. rewrite setupAutoRefresh_first by (cbn; exact Hheld).
      unfold ret. eexists. split; [reflexivity|]. cbn [browser manager].
      split; [cbn; rewrite lookup_insert_ne by discriminate; apply lookup_insert_eq|].
      split; [cbn; apply lookup_insert_eq|].
      change (5 * 60 * 1000) with REFRESH_MARGIN_MS.
      destruct (expiresAt info - t3 - REFRESH_MARGIN_MS >? 0); cbn; auto.
  - unfold ensureValidToken. unfold bind at 1. unfold on_browser at 1.
    rewrite Hget. unfold bind, throw. eexists. split; [reflexivity|]. reflexivity.
Qed.

Lemma getTokenInfo_nothing now b :
  window_defined b = true -> storage_blocked b = false ->
  localStorage b !! TOKEN_INFO_KEY = None ->
  getTokenInfo JSON_parse now b = (Returned None, b).
Proof.
  intros Hw Hs Hraw. unfold getTokenInfo, bind, gets, try_catch, getItem.
  rewrite Hw. simpl. now rewrite Hs, Hraw.
Qed.

(** A manager that holds a timer id does not touch its timer in
    [ensureValidToken], whatever the cache holds and whatever the call
    does. *)
Lemma ensureValidToken_keeps_held_timer t1 t2 t3 generated c id :
  held_timer (refreshTimer (manager c)) = Some id ->
  let c' := snd (ensureValidToken JSON_parse JSON_stringify t1 t2 t3 generated c) in
  refreshTimer (manager c') = refreshTimer (manager c)
  /\ scheduled (manager c') = scheduled (manager c).
Proof.
  intros Hheld.
  unfold ensureValidToken, bind, on_browser, on_manager, modify, gets, ret, throw.
  destruct (getTokenInfo JSON_parse t1 (browser c)) as [[[info|]|err] b1];
    cbn [browser manager fst snd]; [| |auto].
  - destruct (t2 >? expiresAt info).
    + destruct generated as [fresh|]; [|cbn; auto].
      cbn [browser manager].
      destruct (storeToken JSON_stringify fresh b1) as [[u|err] b2];
        cbn [browser manager notify refreshTimer scheduled fst snd]; [|auto].
      rewrite Hheld. cbn. auto.
    + cbn [browser manager]. rewrite Hheld. cbn. auto.
  - destruct generated as [fresh|]; [|cbn; auto].
    cbn [browser manager].
    destruct (storeToken JSON_stringify fresh b1) as [[u|err] b2];
      cbn [browser manager notify refreshTimer scheduled fst snd]; [|auto].
    rewrite Hheld. cbn. auto.
Qed.

Lemma ensure_repeatedly_keeps_held_timer calls :
  forall c id,
    held_timer (refreshTimer (manager c)) = Some id ->
    refreshTimer (manager (ensure_repeatedly JSON_parse JSON_stringify calls c))
    = refreshTimer (manager c)
    /\ scheduled (manager (ensure_repeatedly JSON_parse JSON_stringify calls c))
       = scheduled (manager c).
Proof.
  induction calls as [|[[[t1 t2] t3] generated] calls IH]; intros c id Hheld.
  - split; reflexivity.
  - cbn [ensure_repeatedly].
    destruct (ensureValidToken_keeps_held_timer t1 t2 t3 generated c id Hheld)
      as [Htimer Hdue].
    destruct (IH (snd (ensureValidToken JSON_parse JSON_stringify t1 t2 t3 generated c))
                 id) as [Htimer' Hdue'].
    { now rewrite Htimer. }
    split; congruence.
Qed.

(** When the scheduled renewal fires and [refreshToken] rejects, the cached
    token is cleared, and the manager goes on holding the id of the timer
    that fired. The next [ensureValidToken] therefore generates, stores and
    returns a new token without scheduling a renewal for it; and along every
    sequence of later calls of [ensureValidToken], whatever they find and
    return, no renewal is ever scheduled again. *)
Theorem failed_renewal_ends_auto_refresh now c (current : string) (timer : Timer) :
  window_defined (browser c) = true -> storage_blocked (browser c) = false ->
  localStorage (browser c) !! TOKEN_KEY = Some current -> current <> "" ->
  scheduled (manager c) = Some timer ->
  refreshTimer (manager c) = Some (timer_id timer) -> timer_id timer <> 0%nat ->
  exists c1,
    timer_fires JSON_stringify now None c = (Returned tt, c1)
    /\ localStorage (browser c1) !! TOKEN_KEY = None
    /\ localStorage (browser c1) !! TOKEN_INFO_KEY = None
    /\ refreshTimer (manager c1) = Some (timer_id timer)
    /\ scheduled (manager c1) = None
    /\ (forall t1 t2 t3 info,
          exists c2,
            ensureValidToken JSON_parse JSON_stringify t1 t2 t3 (Some info) c1
            = (Returned (token info), c2)
            /\ localStorage (browser c2) !! TOKEN_KEY = Some (token info)
            /\ scheduled (manager c2) = None)
    /\ forall calls,
         let c' := ensure_repeatedly JSON_parse JSON_stringify calls c1 in
         scheduled (manager c') = None
         /\ refreshTimer (manager c') = Some (timer_id timer).
Proof.
  intros Hw Hs Hcur Hne Hdue Hheld Hid.
  unfold timer_fires. unfold bind at 1. unfold gets at 1. rewrite Hdue.
  unfold bind at 1. unfold on_manager at 1, modify.
  unfold try_catch. unfold bind at 1. unfold on_browser at 1. cbn [browser manager].
  assert (Htoken : getToken (browser c) = (Returned (Some current), browser c)).
  { unfold getToken, bind, gets, try_catch, getItem. rewrite Hw. simpl.
    now rewrite Hs, Hcur. }
  rewrite Htoken, (present_nonempty current Hne).
  unfold throw. unfold bind at 1. unfold on_browser at 1, warn, modify.
  cbn [browser manager].
  unfold on_browser.
  cbn [browser manager].
  rewrite clearToken_clears by assumption.
  set (c1 := {| browser := _; manager := _ |}).
  exists c1. split; [reflexivity|].
  assert (Hk : localStorage (browser c1) !! TOKEN_KEY = None).
  { subst c1. cbn. rewrite lookup_delete_ne by discriminate. apply lookup_delete_eq. }
  assert (Hi : localStorage (browser c1) !! TOKEN_INFO_KEY = None).
  { subst c1. cbn. apply lookup_delete_eq. }
  assert (Hstale : held_timer (refreshTimer (manager c1)) = Some (timer_id timer)).
  { subst c1. cbn [manager refreshTimer]. rewrite Hheld.
    destruct (timer_id timer); [congruence | reflexivity]. }
  split; [exact Hk|]. split; [exact Hi|].
  split; [subst c1; cbn; exact Hheld|]. split; [reflexivity|].
  split.
  - intros t1 t2 t3 info.
    assert (Hw1 : window_defined (browser c1) = true) by (subst c1; cbn; exact Hw).
    assert (Hs1 : storage_blocked (browser c1) = false) by (subst c1; cbn; exact Hs).
    unfold ensureValidToken. unfold bind at 1. unfold on_browser at 1.
    rewrite (getTokenInfo_nothing t1 (browser c1) Hw1 Hs1 Hi).
    unfold bind at 1. unfold bind at 1. unfold on_browser at 1.
    cbn [browser manager].
    rewrite (storeToken_stores JSON_stringify info (browser c1) Hw1 Hs1).
    unfold bind at 1. unfold on_manager at 1, modify. unfold ret at 1.
    unfold bind at 1. unfold gets at 1. cbn [manager browser notify refreshTimer].
    rewrite Hstale.
    unfold bind, ret. eexists. split; [reflexivity|]. cbn.
    split; [|reflexivity].
    rewrite lookup_insert_ne by discriminate. apply lookup_insert_eq.
  - intros calls.
    destruct (ensure_repeatedly_keeps_held_timer calls c1 (timer_id timer) Hstale)
      as [Htimer Hnone].
    split; [rewrite Hnone; reflexivity | rewrite Htimer; subst c1; cbn; exact Hheld].
Qed.

(** When the scheduled renewal fires and [refreshToken] resolves, the cache
    holds the refreshed secret and expiry with the bounds and id of the
    record the timer was set for, [onTokenRefresh] is told, and the next
    renewal is scheduled five minutes before the new expiry when that is
    still ahead; when it is not, nothing is scheduled. *)
Theorem renewal_stores_and_reschedules now c (current newToken : string)
    (newExpiresAt : Z) (timer : Timer) :
  window_defined (browser c) = true -> storage_blocked (browser c) = false ->
  localStorage (browser c) !! TOKEN_KEY = Some current -> current <> "" ->
  scheduled (manager c) = Some timer ->
  let renewed :=
    {| token := newToken; expiresAt := newExpiresAt;
       maxSessions := maxSessions (captured timer);
       maxMessages := maxMessages (captured timer);
       tokenId := tokenId (captured timer) |} in
  exists c1,
    timer_fires JSON_stringify now (Some (newToken, newExpiresAt)) c
    = (Returned tt, c1)
    /\ localStorage (browser c1) !! TOKEN_KEY = Some newToken
    /\ localStorage (browser c1) !! TOKEN_INFO_KEY = Some (JSON_stringify renewed)
    /\ notified (manager c1) = renewed :: notified (manager c)
    /\ scheduled (manager c1)
       = let wait := newExpiresAt - now - 5 * 60 * 1000 in
         if wait >? 0
         then Some {| timer_id := next_timer (manager c);
                      delay := wait; captured := renewed |}
         else None.
Proof.
  intros Hw Hs Hcur Hne Hdue renewed.
  unfold timer_fires. unfold bind at 1. unfold gets at 1. rewrite Hdue.
  unfold bind at 1. unfold on_manager at 1, modify.
  unfold try_catch. unfold bind at 1. unfold on_browser at 1. cbn [browser manager].
  assert (Htoken : getToken (browser c) = (Returned (Some current), browser c)).
  { unfold getToken, bind, gets, try_catch, getItem. rewrite Hw. simpl.
    now rewrite Hs, Hcur. }
  rewrite Htoken, (present_nonempty current Hne).
  unfold bind at 1. unfold on_browser at 1. cbn [browser manager].
  fold renewed.
  rewrite (storeToken_stores JSON_stringify renewed (browser c) Hw Hs).
  unfold bind at 1. unfold on_manager at 1, modify.
  unfold setupAutoRefresh. unfold bind at 1. unfold gets at 1.
  cbn [browser manager refreshTimer notify].
  change (5 * 60 * 1000) with REFRESH_MARGIN_MS.
  cbn [expiresAt renewed].
  destruct (held_timer (refreshTimer (manager c)));
    unfold bind at 1; [unfold on_manager at 1, modify | unfold ret at 1];
    cbn [browser manager];
    destruct (newExpiresAt - now - REFRESH_MARGIN_MS >? 0).
  - unfold on_manager, modify. eexists. split; [reflexivity|]. cbn.
    split; [rewrite lookup_insert_ne by discriminate; apply lookup_insert_eq|].
    split; [apply lookup_insert_eq|]. split; reflexivity.
  - unfold ret. eexists. split; [reflexivity|]. cbn.
    split; [rewrite lookup_insert_ne by discriminate; apply lookup_insert_eq|].
    split; [apply lookup_insert_eq|]. split; reflexivity.
  - unfold on_manager, modify. eexists. split; [reflexivity|]. cbn.
    split; [rewrite lookup_insert_ne by discriminate; apply lookup_insert_eq|].
    split; [apply lookup_insert_eq|]. split; reflexivity.
  - unfold ret. eexists. split; [reflexivity|]. cbn.
    split; [rewrite lookup_insert_ne by discriminate; apply lookup_insert_eq|].
    split; [apply lookup_insert_eq|]. split; reflexivity.
Qed.

(** [destroy] cancels the pending renewal: the manager holds no timer
    afterwards, the cache is untouched, and the cancelled callback never
    runs, so nothing is refreshed or cleared later, whatever [refreshToken]
    would have answered. *)
Theorem destroy_cancels_renewal c (timer : Timer) :
  scheduled (manager c) = Some timer ->
  refreshTimer (manager c) = Some (timer_id timer) -> timer_id timer <> 0%nat ->
  exists c1,
    destroy c = (Returned tt, c1)
    /\ browser c1 = browser c
    /\ refreshTimer (manager c1) = None
    /\ scheduled (manager c1) = None
    /\ notified (manager c1) = notified (manager c)
    /\ forall now refreshed,
         timer_fires JSON_stringify now refreshed c1 = (Returned tt, c1).
Proof.
  intros Hdue Hheld Hid.
  unfold destroy. unfold bind at 1. unfold gets at 1. rewrite Hheld.
  destruct (timer_id timer) as [|n] eqn:Hn; [congruence|].
  cbn [held_timer]. unfold bind, on_manager, modify. cbn [browser manager].
  unfold clearTimeout. cbn [scheduled refreshTimer next_timer notified].
  rewrite Hdue, Hn, Nat.eqb_refl.
  eexists. split; [reflexivity|]. cbn.
  repeat (split; [reflexivity|]).
  intros now refreshed. reflexivity.
Qed.

End Manager.

(** A page whose cache holds the sample record and whose manager is new. *)
Lemma cached_token_is_reused_witness :
  exists c',
    TokenClient.ensureValidToken sample_parse sample_stringify 1000 1000 1000 None
      (TokenClient.Build_Client (TokenClient.browser waiting_client)
         TokenClient.new_manager)
    = (Eff.Returned sample_token, c')
    /\ TokenClient.scheduled (TokenClient.manager c')
       = Some {| TokenClient.timer_id := 1; TokenClient.delay := 3300000;
                 TokenClient.captured := sample_info |}.
Proof.
  destruct (cached_token_is_reused sample_parse sample_stringify 1000 1000 1000 None
              (TokenClient.Build_Client (TokenClient.browser waiting_client)
                 TokenClient.new_manager) sample_record sample_info)
    as (c' & Hrun & _ & _ & Htimer);
    [reflexivity | reflexivity | reflexivity | discriminate | reflexivity
    | vm_compute; discriminate | vm_compute; discriminate |].
  exists c'. split; [exact Hrun | exact Htimer].
Defined.

Lemma missing_token_is_generated_witness :
  exists c',
    TokenClient.ensureValidToken sample_parse sample_stringify 1000 1000 1000
      (Some sample_info) fresh_client
    = (Eff.Returned sample_token, c')
    /\ TokenService.localStorage (TokenClient.browser c') !! TokenService.TOKEN_KEY
       = Some sample_token
    /\ TokenClient.notified (TokenClient.manager c') = [sample_info].
Proof.
  destruct (missing_token_is_generated sample_parse sample_stringify 1000 1000 1000
              (Some sample_info) fresh_client)
    as (c' & Hrun & Hkey & _ & Htold & _);
    [reflexivity | reflexivity | reflexivity |].
  exists c'. split; [exact Hrun|]. split; [exact Hkey | exact Htold].
Defined.

Lemma failed_renewal_ends_auto_refresh_witness :
  exists c1,
    TokenClient.timer_fires sample_stringify 3301000 None waiting_client
    = (Eff.Returned tt, c1)
    /\ TokenService.localStorage (TokenClient.browser c1) !! TokenService.TOKEN_KEY
       = None
    /\ (exists c2,
          TokenClient.ensureValidToken sample_parse sample_stringify
            3302000 3302000 3302000 (Some sample_info) c1
          = (Eff.Returned sample_token, c2)
          /\ TokenClient.scheduled (TokenClient.manager c2) = None)
    /\ TokenClient.scheduled
         (TokenClient.manager
            (TokenClient.ensure_repeatedly sample_parse sample_stringify
               [(3302000, 3302000, 3302000, Some sample_info);
                (3303000, 3303000, 3303000, Some sample_info)] c1))
       = None.
Proof.
  destruct (failed_renewal_ends_auto_refresh sample_parse sample_stringify 3301000
              waiting_client sample_token sample_timer)
    as (c1 & Hrun & Hkey & _ & _ & _ & Hnext & Hlater);
    [reflexivity | reflexivity | reflexivity | discriminate | reflexivity
    | reflexivity | discriminate |].
  exists c1. split; [exact Hrun|]. split; [exact Hkey|]. split.
  - destruct (Hnext 3302000 3302000 3302000 sample_info) as (c2 & Hrun2 & _ & Hnone).
    exists c2. split; [exact Hrun2 | exact Hnone].
  - apply Hlater.
Defined.

Lemma renewal_stores_and_reschedules_witness :
  exists c1,
    TokenClient.timer_fires sample_stringify 3301000 (Some (sample_token, 7201000))
      waiting_client
    = (Eff.Returned tt, c1)
    /\ TokenService.localStorage (TokenClient.browser c1) !! TokenService.TOKEN_KEY
       = Some sample_token
    /\ TokenClient.scheduled (TokenClient.manager c1)
       = Some {| TokenClient.timer_id := 2; TokenClient.delay := 3600000;
                 TokenClient.captured :=
                   {| TokenService.token := sample_token;
                      TokenService.expiresAt := 7201000;
                      TokenService.maxSessions := 5;
                      TokenService.maxMessages := 1000;
                      TokenService.tokenId := "0" |} |}.
Proof.
  destruct (renewal_stores_and_reschedules sample_stringify 3301000 waiting_client
              sample_token sample_token 7201000 sample_timer)
    as (c1 & Hrun & Hkey & _ & _ & Htimer);
    [reflexivity | reflexivity | reflexivity | discriminate | reflexivity |].
  exists c1. split; [exact Hrun|]. split; [exact Hkey | exact Htimer].
Defined.

Lemma destroy_cancels_renewal_witness :
  exists c1,
    TokenClient.destroy waiting_client = (Eff.Returned tt, c1)
    /\ TokenClient.scheduled (TokenClient.manager c1) = None
    /\ TokenClient.timer_fires sample_stringify 3301000 None c1 = (Eff.Returned tt, c1).
Proof.
  destruct (destroy_cancels_renewal sample_stringify waiting_client sample_timer)
    as (c1 & Hrun & _ & _ & Hnone & _ & Hquiet);
    [reflexivity | reflexivity | discriminate |].
  exists c1. split; [exact Hrun|]. split; [exact Hnone | apply Hquiet].
Defined.
